(** * meloshub-tools: the metadata scanner (cmd/metagen) and the snapshot
      differ (cmd/differ), embedded shallowly and checked against the
      statements of the specification.

    Layout: Go's [strings] helpers, the metadata record, the fragment of
    [go/ast], [go/types] and [go/constant] the scanner reads, [ast.Inspect],
    the functions of [cmd/metagen/main.go] and [cmd/differ/main.go], the
    vocabulary of the statements and the example programs; then the
    properties, component by component. *)

From Stdlib Require Import ZArith Ascii String.
From stdpp Require Import gmap strings list fin_maps sorting.

Open Scope list_scope.

(** ** Go's [strings] package (the four functions the tools call) *)

Module Strings.

(** [strings.HasSuffix]: [len(s) >= len(suffix) && s[len(s)-len(suffix):] == suffix]. *)
Definition HasSuffix (s suffix : string) : bool :=
  (String.length suffix <=? String.length s)%nat &&
  String.eqb
    (String.substring (String.length s - String.length suffix)
                      (String.length suffix) s)
    suffix.

(** [strings.HasPrefix]. *)
Definition HasPrefix (s pre : string) : bool := String.prefix pre s.

(** [strings.Contains(s, substr)]: some position of [s] starts with [substr]. *)
Fixpoint Contains (s substr : string) : bool :=
  HasPrefix s substr ||
  match s with
  | EmptyString => false
  | String _ s' => Contains s' substr
  end.

Fixpoint inCutset (c : ascii) (cutset : string) : bool :=
  match cutset with
  | EmptyString => false
  | String d rest => Ascii.eqb c d || inCutset c rest
  end.

Fixpoint TrimLeft (s cutset : string) : string :=
  match s with
  | EmptyString => EmptyString
  | String c s' => if inCutset c cutset then TrimLeft s' cutset else s
  end.

Fixpoint TrimRight (s cutset : string) : string :=
  match s with
  | EmptyString => EmptyString
  | String c s' =>
      match TrimRight s' cutset with
      | EmptyString => if inCutset c cutset then EmptyString else String c EmptyString
      | r => String c r
      end
  end.

(** [strings.Trim(s, cutset)]: every leading and every trailing character of
    [s] that occurs in [cutset] is removed. *)
Definition Trim (s cutset : string) : string :=
  TrimRight (TrimLeft s cutset) cutset.

End Strings.

(** ** [adapter.Metadata]

    The type lives in the registry's own module
    ([github.com/meloshub/meloshub/adapter]); the tools read and write the
    six fields below, [Type] being the string type [adapter.AdapterType]. *)

Record Metadata := mkMetadata {
  Id : string;
  Title : string;
  Type_ : string;
  Version : string;
  Author : string;
  Description : string
}.

#[global] Instance Metadata_eq_dec : EqDecision Metadata.
Proof. solve_decision. Defined.

(** The zero value [var meta adapter.Metadata]. *)
Definition zeroMetadata : Metadata := mkMetadata "" "" "" "" "" "".

(** ** Results of code that may panic *)

Inductive Res (A : Type) : Type :=
| Ok (a : A)
| Panic (msg : string).
Arguments Ok {A} a.
Arguments Panic {A} msg.

#[global] Instance Res_ret : MRet Res := λ A a, Ok a.
#[global] Instance Res_bind : MBind Res := λ A B k m,
  match m with
  | Ok a => k a
  | Panic msg => Panic msg
  end.

(** ** [go/token], [go/constant], [go/types] *)

Inductive Token :=
| INT | FLOAT | IMAG | CHAR | STRING
| ASSIGN | DEFINE | ADD | AND.

#[global] Instance Token_eq_dec : EqDecision Token.
Proof. solve_decision. Defined.

(** [constant.Value], by kind. *)
Inductive ConstValue :=
| unknownVal
| boolVal (b : bool)
| stringVal (s : string)
| int64Val (z : Z)
| floatVal (repr : string).

Module constant.

(** [constant.StringVal]: the string of a String value, the empty string
    for an Unknown value, and a panic ("... not a String") for a value of
    any other kind. *)
Definition StringVal (x : ConstValue) : Res string :=
  match x with
  | stringVal s => Ok s
  | unknownVal => Ok ""
  | _ => Panic "not a String"
  end.

End constant.

(** [*types.Package]. *)
Record Package := mkPackage { Path : string; PkgName : string }.

(** The dynamic type of a [types.Object]; only [*types.Const] carries data
    the scanner reads. *)
Inductive ObjectKind :=
| Const (val : ConstValue)
| Var
| Func
| TypeName
| PkgNameObj
| Builtin
| NilObj.

(** A [types.Object]. Objects are compared by pointer in Go; [ObjAddr]
    stands for that pointer. *)
Record Object := mkObject {
  ObjAddr : nat;
  ObjName : string;
  Pkg : option Package;
  Kind : ObjectKind
}.

(** [info.ObjectOf(a) == obj] on two non-nil objects. *)
Definition sameObject (a b : Object) : bool := (ObjAddr a =? ObjAddr b)%nat.

(** [types.Type], as far as [Type.String] needs it. *)
Inductive GoType :=
| Named (pkg : option Package) (name : string)
| Basic (name : string)
| Pointer (elem : GoType)
| Slice (elem : GoType)
| Map (key elem : GoType).

(** [typ.String()]: a named type is written with the full path of its
    package (the qualifier is nil). *)
Fixpoint TypeString (t : GoType) : string :=
  match t with
  | Named (Some p) name => Path p +:+ "." +:+ name
  | Named None name => name
  | Basic name => name
  | Pointer e => "*" +:+ TypeString e
  | Slice e => "[]" +:+ TypeString e
  | Map k e => "map[" +:+ TypeString k +:+ "]" +:+ TypeString e
  end.

(** ** [go/ast]

    The node kinds the scanner distinguishes, and enough others to write
    function bodies. Positions ([NamePos], [Lbrace]) keep apart nodes that
    are spelled alike, as pointers do in Go. Signatures, receivers'
    field lists and comments are left out; [Recv] only records the name of a
    method's receiver type. The body of a function declaration is a
    pointer that is nil for a declaration without body (a function
    implemented outside Go). *)

Record Ident := mkIdent { NamePos : nat; Name : string }.

#[global] Instance Ident_eq_dec : EqDecision Ident.
Proof. solve_decision. Defined.

#[local] Unset Elimination Schemes.
Inductive Node :=
| NIdent (id : Ident)
| BasicLit (kind : Token) (value : string)
| CompositeLit (lbrace : nat) (type : option Node) (elts : list Node)
| KeyValueExpr (key value : Node)
| CallExpr (fn : Node) (args : list Node)
| SelectorExpr (x : Node) (sel : Ident)
| UnaryExpr (op : Token) (x : Node)
| BinaryExpr (x : Node) (op : Token) (y : Node)
| FuncLit (body : Node)
| AssignStmt (lhs : list Node) (tok : Token) (rhs : list Node)
| ExprStmt (x : Node)
| ReturnStmt (results : list Node)
| BlockStmt (stmts : list Node)
| FuncDecl (recv : option string) (name : Ident) (body : option Node)
| GenDecl (specs : list Node)
| ValueSpec (names : list Ident) (values : list Node)
| File (pkgname : Ident) (decls : list Node).
#[local] Set Elimination Schemes.

(** [types.Info], queried through [ObjectOf] and [TypeOf]. *)
Record Info := mkInfo {
  ObjectOf : Ident → option Object;
  TypeOf : Node → option GoType
}.

(** The children of a node, in the order [ast.Walk] visits them. *)
Definition optNode (o : option Node) : list Node :=
  match o with Some n => [n] | None => [] end.

Definition children (n : Node) : list Node :=
  match n with
  | NIdent _ | BasicLit _ _ => []
  | CompositeLit _ ty elts => optNode ty ++ elts
  | KeyValueExpr k v => [k; v]
  | CallExpr fn args => fn :: args
  | SelectorExpr x sel => [x; NIdent sel]
  | UnaryExpr _ x => [x]
  | BinaryExpr x _ y => [x; y]
  | FuncLit body => [body]
  | AssignStmt lhs _ rhs => lhs ++ rhs
  | ExprStmt x => [x]
  | ReturnStmt results => results
  | BlockStmt stmts => stmts
  | FuncDecl _ name body => NIdent name :: optNode body
  | GenDecl specs => specs
  | ValueSpec names values => map NIdent names ++ values
  | File pkgname decls => NIdent pkgname :: decls
  end.

(** [ast.Inspect(n, f)]: [f] is called on [n]; when it answers [true] the
    children of [n] are inspected in order, when it answers [false] they are
    skipped and the walk goes on with whatever follows [n]. The state [S] is
    what the closure [f] captures and assigns. (The closing call [f(nil)]
    is omitted: each closure of the scanner answers it with [true] and
    assigns nothing.) *)
Section Inspect.
Context {S : Type} (f : Node → S → Res (S * bool)).

(** Visiting an identifier held in a field: it has no children. *)
Definition visitIdent (x : Ident) (s : S) : Res S :=
  '(s0, _) ← f (NIdent x) s; Ok s0.

Fixpoint Inspect (n : Node) (s : S) {struct n} : Res S :=
  let walkList :=
    fix walkList (l : list Node) (s : S) {struct l} : Res S :=
      match l with
      | [] => Ok s
      | x :: l' => s' ← Inspect x s; walkList l' s'
      end in
  let walkIdents :=
    fix walkIdents (l : list Ident) (s : S) {struct l} : Res S :=
      match l with
      | [] => Ok s
      | x :: l' => s' ← visitIdent x s; walkIdents l' s'
      end in
  '(s0, descend) ← f n s;
  if descend : bool then
    match n with
    | NIdent _ | BasicLit _ _ => Ok s0
    | CompositeLit _ ty elts =>
        s1 ← match ty with Some t => Inspect t s0 | None => Ok s0 end;
        walkList elts s1
    | KeyValueExpr k v => s1 ← Inspect k s0; Inspect v s1
    | CallExpr fn args => s1 ← Inspect fn s0; walkList args s1
    | SelectorExpr x sel => s1 ← Inspect x s0; visitIdent sel s1
    | UnaryExpr _ x => Inspect x s0
    | BinaryExpr x _ y => s1 ← Inspect x s0; Inspect y s1
    | FuncLit body => Inspect body s0
    | AssignStmt lhs _ rhs => s1 ← walkList lhs s0; walkList rhs s1
    | ExprStmt x => Inspect x s0
    | ReturnStmt results => walkList results s0
    | BlockStmt stmts => walkList stmts s0
    | FuncDecl _ name body =>
        s1 ← visitIdent name s0;
        match body with Some b => Inspect b s1 | None => Ok s1 end
    | GenDecl specs => walkList specs s0
    | ValueSpec names values => s1 ← walkIdents names s0; walkList values s1
    | File pkgname decls => s1 ← visitIdent pkgname s0; walkList decls s1
    end
  else Ok s0.

(** The walk over a list of nodes ([walkList] of [go/ast]). *)
Fixpoint InspectList (l : list Node) (s : S) : Res S :=
  match l with
  | [] => Ok s
  | x :: l' => s' ← Inspect x s; InspectList l' s'
  end.
End Inspect.

(** What the Go runtime reports when a nil pointer is read through. *)
Definition nilDereference : string :=
  "runtime error: invalid memory address or nil pointer dereference".

(** [ast.Inspect(body, f)] for [body] of type [*ast.BlockStmt], which is nil
    for a declaration without body. The nil pointer is still a node for
    [ast.Walk]: [f] is called on it, and each closure of the scanner answers
    [true] and assigns nothing, the node being of none of the kinds it looks
    for; [ast.Walk] then reads [body.List], and the program panics. *)
Definition InspectBlock {S : Type} (f : Node → S → Res (S * bool))
    (body : option Node) (s : S) : Res S :=
  match body with
  | Some block => Inspect f block s
  | None => Panic nilDereference
  end.

(** The type assertion to [*ast.FuncDecl]: the fields of a function
    declaration. *)
Record FuncDeclT := mkFuncDecl {
  Recv : option string;
  FuncName : Ident;
  Body : option Node
}.

Definition asFuncDecl (n : Node) : option FuncDeclT :=
  match n with
  | FuncDecl recv name body => Some (mkFuncDecl recv name body)
  | _ => None
  end.

(** [fmt.Sprintf("%s", e)] for an [ast.Expr]: [*ast.Ident] has a [String]
    method that returns the name; any other expression is a pointer to a
    struct without one and is written as [&{...}] around its fields, which
    the model abbreviates. *)
Definition Sprintf_s (e : Node) : string :=
  match e with
  | NIdent id => Name id
  | _ => "&{...}"
  end.

(** The one-character string holding a double quote. *)
Definition dquote : string := String "034"%char EmptyString.
Definition bquote : string := String "096"%char EmptyString.

(** ** cmd/metagen/main.go *)

Module Metagen.

(** [getExprValue]: the value of a string literal or of a constant. *)
Definition getExprValue (info : Info) (expr : Node) : Res string :=
  match expr with
  | BasicLit kind value =>
      if decide (kind = STRING) then Ok (Strings.Trim value dquote) else Ok ""
  | NIdent ident =>
      match ObjectOf info ident with
      | Some obj =>
          match Kind obj with
          | Const val => constant.StringVal val
          | _ => Ok ""
          end
      | None => Ok ""
      end
  | SelectorExpr _ sel =>
      match ObjectOf info sel with
      | Some obj =>
          match Kind obj with
          | Const val => constant.StringVal val
          | _ => Ok ""
          end
      | None => Ok ""
      end
  | _ => Ok ""
  end.

(** The [switch keyName] of [parseCompositeLit]. *)
Definition setField (keyName value : string) (meta : Metadata) : Metadata :=
  if String.eqb keyName "Id" then
    mkMetadata value (Title meta) (Type_ meta) (Version meta) (Author meta) (Description meta)
  else if String.eqb keyName "Title" then
    mkMetadata (Id meta) value (Type_ meta) (Version meta) (Author meta) (Description meta)
  else if String.eqb keyName "Type" then
    mkMetadata (Id meta) (Title meta) value (Version meta) (Author meta) (Description meta)
  else if String.eqb keyName "Version" then
    mkMetadata (Id meta) (Title meta) (Type_ meta) value (Author meta) (Description meta)
  else if String.eqb keyName "Author" then
    mkMetadata (Id meta) (Title meta) (Type_ meta) (Version meta) value (Description meta)
  else if String.eqb keyName "Description" then
    mkMetadata (Id meta) (Title meta) (Type_ meta) (Version meta) (Author meta) value
  else meta.

(** The loop over [compLit.Elts]. *)
Fixpoint parseElts (info : Info) (elts : list Node) (meta : Metadata) : Res Metadata :=
  match elts with
  | [] => Ok meta
  | el :: rest =>
      match el with
      | KeyValueExpr key val =>
          let keyName := Sprintf_s key in
          value ← getExprValue info val;
          parseElts info rest (setField keyName value meta)
      | _ => parseElts info rest meta
      end
  end.

(** [parseCompositeLit]: the key-value pairs of a struct literal. *)
Definition parseCompositeLit (info : Info) (expr : Node) : Res (option Metadata) :=
  match expr with
  | CompositeLit _ _ elts =>
      meta ← parseElts info elts zeroMetadata;
      if String.eqb (Id meta) "" then Ok None else Ok (Some meta)
  | _ => Ok None
  end.

(** The closure of [findMetadataInFuncBody]; its state is [foundMeta]. *)
Definition metadataVisitor (info : Info) (n : Node) (foundMeta : option Metadata)
  : Res (option Metadata * bool) :=
  match n with
  | CompositeLit _ _ _ =>
      match TypeOf info n with
      | Some typ =>
          if Strings.HasSuffix (TypeString typ) "adapter.Metadata" then
            meta ← parseCompositeLit info n;
            match meta with
            | Some m => Ok (Some m, false)
            | None => Ok (foundMeta, true)
            end
          else Ok (foundMeta, true)
      | None => Ok (foundMeta, true)
      end
  | _ => Ok (foundMeta, true)
  end.

(** [findMetadataInFuncBody]. *)
Definition findMetadataInFuncBody (info : Info) (body : option Node)
  : Res (option Metadata) :=
  InspectBlock (metadataVisitor info) body None.

(** The first closure of [findConstructorFunc] (the search for the
    assignment); its state is [constructorName]. *)
Definition assignVisitor (info : Info) (obj : Object) (n : Node) (constructorName : string)
  : Res (string * bool) :=
  match n with
  | AssignStmt [NIdent lhsIdent] _ [rhs] =>
      match ObjectOf info lhsIdent with
      | Some o =>
          if sameObject o obj then
            match rhs with
            | CallExpr (NIdent funIdent) _ => Ok (Name funIdent, false)
            | _ => Ok (constructorName, true)
            end
          else Ok (constructorName, true)
      | None => Ok (constructorName, true)
      end
  | _ => Ok (constructorName, true)
  end.

(** The second closure of [findConstructorFunc] (the search for the
    declaration); its state is [constructorFunc]. *)
Definition declVisitor (constructorName : string) (n : Node) (constructorFunc : option FuncDeclT)
  : Res (option FuncDeclT * bool) :=
  match asFuncDecl n with
  | Some funcDecl =>
      if String.eqb (Name (FuncName funcDecl)) constructorName
      then Ok (Some funcDecl, false)
      else Ok (constructorFunc, true)
  | None => Ok (constructorFunc, true)
  end.

(** [findConstructorFunc]. The inner [option] of the first step is the
    early [return nil] taken when the variable has no object. *)
Definition findConstructorFunc (info : Info) (file : Node) (arg : Node)
  : Res (option FuncDeclT) :=
  let constructorName :=
    match arg with
    | CallExpr (NIdent ident) _ => Name ident
    | _ => ""
    end in
  traced ←
    match arg with
    | NIdent ident =>
        match ObjectOf info ident with
        | None => Ok None
        | Some obj =>
            name ← Inspect (assignVisitor info obj) file constructorName;
            Ok (Some name)
        end
    | _ => Ok (Some constructorName)
    end;
  match traced with
  | None => Ok None
  | Some constructorName =>
      if String.eqb constructorName "" then Ok None
      else Inspect (declVisitor constructorName) file None
  end.

(** The closure of [findRegisterCallArgument]; its state is [argExpr]. *)
Definition registerVisitor (info : Info) (n : Node) (argExpr : option Node)
  : Res (option Node * bool) :=
  match n with
  | CallExpr (SelectorExpr _ sel) args =>
      if String.eqb (Name sel) "Register" then
        match ObjectOf info sel with
        | Some obj =>
            match Pkg obj with
            | Some p =>
                if Strings.HasSuffix (Path p) "meloshub/adapter" then
                  match args with
                  | a :: _ => Ok (Some a, false)
                  | [] => Ok (argExpr, true)
                  end
                else Ok (argExpr, true)
            | None => Ok (argExpr, true)
            end
        | None => Ok (argExpr, true)
        end
      else Ok (argExpr, true)
  | _ => Ok (argExpr, true)
  end.

(** [findRegisterCallArgument]. *)
Definition findRegisterCallArgument (info : Info) (body : option Node)
  : Res (option Node) :=
  InspectBlock (registerVisitor info) body None.

(** What [log.Printf] writes during the scan of a file. *)
Inductive Diagnostic :=
| WarnUntraceable (file : Node).

(** The closure of [findMetadataInFile]; its state is [foundMeta] and the
    log. *)
Definition initVisitor (info : Info) (file : Node) (n : Node)
    (st : option Metadata * list Diagnostic)
  : Res ((option Metadata * list Diagnostic) * bool) :=
  match asFuncDecl n with
  | Some initFunc =>
      if String.eqb (Name (FuncName initFunc)) "init" then
        registerArg ← findRegisterCallArgument info (Body initFunc);
        match registerArg with
        | None => Ok (st, false)
        | Some arg =>
            constructorFunc ← findConstructorFunc info file arg;
            match constructorFunc with
            | None => Ok ((st.1, st.2 ++ [WarnUntraceable file]), false)
            | Some ctor =>
                meta ← findMetadataInFuncBody info (Body ctor);
                match meta with
                | Some m => Ok ((Some m, st.2), false)
                | None => Ok (st, false)
                end
            end
        end
      else Ok (st, true)
  | None => Ok (st, true)
  end.

(** [findMetadataInFile], with the diagnostics it logs. *)
Definition findMetadataInFile (info : Info) (file : Node)
  : Res (option Metadata * list Diagnostic) :=
  Inspect (initVisitor info file) file (None, []).

(** [*packages.Package]. *)
Record LoadedPackage := mkLoadedPackage {
  PkgPath : string;
  GoFiles : list string;
  Syntax : list Node;
  TypesInfo : Info
}.

(** [findMetadataInPackage]: the first file that yields a record. *)
Fixpoint findMetadataInFiles (info : Info) (files : list Node) (log : list Diagnostic)
  : Res (option Metadata * list Diagnostic) :=
  match files with
  | [] => Ok (None, log)
  | file :: rest =>
      '(meta, l) ← findMetadataInFile info file;
      match meta with
      | Some m => Ok (Some m, log ++ l)
      | None => findMetadataInFiles info rest (log ++ l)
      end
  end.

Definition findMetadataInPackage (pkg : LoadedPackage)
  : Res (option Metadata * list Diagnostic) :=
  findMetadataInFiles (TypesInfo pkg) (Syntax pkg) [].

(** [isIrrelevantPackage]. *)
Definition isIrrelevantPackage (pkg : LoadedPackage) : bool :=
  Strings.Contains (PkgPath pkg) "/tools" || (length (GoFiles pkg) =? 0)%nat.

(** The loop of [main] over the loaded packages. *)
Fixpoint scanPackages (pkgs : list LoadedPackage)
    (allMetadata : list Metadata) (log : list Diagnostic)
  : Res (list Metadata * list Diagnostic) :=
  match pkgs with
  | [] => Ok (allMetadata, log)
  | pkg :: rest =>
      if isIrrelevantPackage pkg then scanPackages rest allMetadata log
      else
        '(meta, l) ← findMetadataInPackage pkg;
        match meta with
        | Some m => scanPackages rest (allMetadata ++ [m]) (log ++ l)
        | None => scanPackages rest allMetadata (log ++ l)
        end
  end.

(** What [os.Stat] and [os.ReadFile] find at the output path. *)
Inductive FileState :=
| NotExist
| StatError (err : string)
| ReadError (err : string)
| Exists (data : string).

(** The errors of [checkConflicts], by their format strings:
    "could not stat existing file %s: %w", "could not read existing file
    %s: %w", "could not parse existing yaml file %s: %w" and "duplicate
    adapter Id '%s' found in the current scan". *)
Inductive Error :=
| ErrStat (filePath err : string)
| ErrRead (filePath err : string)
| ErrParse (filePath err : string)
| ErrDuplicateId (id : string).

(** [m[k]] on a [map[string]bool]: [false] for an absent key. *)
Definition indexMap (m : gmap string bool) (k : string) : bool :=
  default false (m !! k).

(** The first loop of [checkConflicts]. *)
Definition idSetOf (existingMetadata : list Metadata) : gmap string bool :=
  foldl (λ set meta, <[Id meta := true]> set) ∅ existingMetadata.

(** The second loop of [checkConflicts]. The branch on [existingIdSet] has
    an empty body: both of its arms go on with the rest of the iteration. *)
Fixpoint checkLoop (existingIdSet : gmap string bool) (newMetadata : list Metadata)
    (newIdSet : gmap string bool) : option Error :=
  match newMetadata with
  | [] => None
  | meta :: rest =>
      let continue :=
        if indexMap newIdSet (Id meta) then Some (ErrDuplicateId (Id meta))
        else checkLoop existingIdSet rest (<[Id meta := true]> newIdSet) in
      if indexMap existingIdSet (Id meta) then continue else continue
  end.

Section Main.
(** [yaml.Unmarshal] into a slice of records and [yaml.Marshal] of one,
    from gopkg.in/yaml.v3. *)
Variable yaml_Unmarshal : string → string + list Metadata.
Variable yaml_Marshal : list Metadata → string + string.

(** [checkConflicts]; [None] is the nil error. *)
Definition checkConflicts (newMetadata : list Metadata) (filePath : string)
    (fs : FileState) : option Error :=
  match fs with
  | NotExist => None
  | StatError err => Some (ErrStat filePath err)
  | ReadError err => Some (ErrRead filePath err)
  | Exists existingData =>
      match yaml_Unmarshal existingData with
      | inl err => Some (ErrParse filePath err)
      | inr existingMetadata =>
          checkLoop (idSetOf existingMetadata) newMetadata ∅
      end
  end.

(** [sort.Slice] with [allMetadata[i].Id < allMetadata[j].Id], as the
    insertion sort it runs on short slices: each record in turn moves left
    past the records of greater Id. On long slices [sort.Slice] does not
    promise an order among records of equal Id. *)
Fixpoint insertById (m : Metadata) (sorted : list Metadata) : list Metadata :=
  match sorted with
  | [] => [m]
  | x :: rest =>
      if String.ltb (Id m) (Id x) then m :: sorted else x :: insertById m rest
  end.

Definition sortById (l : list Metadata) : list Metadata :=
  foldl (λ sorted m, insertById m sorted) [] l.

(** How a run of [main] ends: one of the [log.Fatalf] calls, or the
    output file written with the given bytes. *)
Inductive Outcome :=
| FatalConflict (e : Error)
| FatalMarshal (err : string)
| FatalWrite (err : string)
| Crashed (msg : string)
| Written (path : string) (data : string).

(** The state of the file system a run meets: the file at the output
    path, and whether [os.WriteFile] to it fails. *)
Record Env := mkEnv {
  existing : FileState;
  writeError : option string
}.

(** [main] from the conflict check on. *)
Definition report (allMetadata : list Metadata) (outputFile : string) (env : Env)
  : Outcome :=
  match checkConflicts allMetadata outputFile (existing env) with
  | Some err => FatalConflict err
  | None =>
      match yaml_Marshal (sortById allMetadata) with
      | inl err => FatalMarshal err
      | inr yamlData =>
          match writeError env with
          | Some err => FatalWrite err
          | None => Written outputFile yamlData
          end
      end
  end.

(** [main], given the packages [packages.Load] returned. *)
Definition main (pkgs : list LoadedPackage) (outputFile : string) (env : Env)
  : Outcome :=
  match scanPackages pkgs [] [] with
  | Panic msg => Crashed msg
  | Ok (allMetadata, _) => report allMetadata outputFile env
  end.
End Main.

End Metagen.

(** ** cmd/differ/main.go *)

Module Differ.

Record UpdateEntry := mkUpdateEntry {
  Before : Metadata;
  After : Metadata
}.

Record ChangeReport := mkChangeReport {
  Added : list Metadata;
  Removed : list Metadata;
  Updated : list UpdateEntry
}.

(** The two loops that fill [oldMap] and [newMap]. *)
Definition toMap (l : list Metadata) : gmap string Metadata :=
  foldl (λ m x, <[Id x := x]> m) ∅ l.

Section Compare.
(** [yaml.Marshal] of one record; [compareMetadata] drops its error, and
    the bytes are nil when there is one. *)
Variable yaml_Marshal : Metadata → string + string.

Definition bytesOf (r : string + string) : string :=
  match r with inr b => b | inl _ => "" end.

(** The body of the loop over [newMap]. *)
Definition stepNew (oldMap : gmap string Metadata) (report : ChangeReport)
    (entry : string * Metadata) : ChangeReport :=
  let '(id, newMeta) := entry in
  match oldMap !! id with
  | None => mkChangeReport (Added report ++ [newMeta]) (Removed report) (Updated report)
  | Some oldMeta =>
      let oldYAML := bytesOf (yaml_Marshal oldMeta) in
      let newYAML := bytesOf (yaml_Marshal newMeta) in
      if negb (String.eqb oldYAML newYAML) then
        mkChangeReport (Added report) (Removed report)
                       (Updated report ++ [mkUpdateEntry oldMeta newMeta])
      else report
  end.

(** The body of the loop over [oldMap]. *)
Definition stepOld (newMap : gmap string Metadata) (report : ChangeReport)
    (entry : string * Metadata) : ChangeReport :=
  let '(id, oldMeta) := entry in
  match newMap !! id with
  | None => mkChangeReport (Added report) (Removed report ++ [oldMeta]) (Updated report)
  | Some _ => report
  end.

(** [compareMetadata] for given orders of the two [range] loops: Go does
    not fix the order in which a map is ranged over. *)
Definition compareIn (newOrder oldOrder : list (string * Metadata))
    (oldList newList : list Metadata) : ChangeReport :=
  let oldMap := toMap oldList in
  let newMap := toMap newList in
  let report := mkChangeReport [] [] [] in
  let report := foldl (stepNew oldMap) report newOrder in
  foldl (stepOld newMap) report oldOrder.

(** One run of [compareMetadata]. *)
Definition compareMetadata (oldList newList : list Metadata) : ChangeReport :=
  compareIn (map_to_list (toMap newList)) (map_to_list (toMap oldList))
            oldList newList.

(** Every report a run of [compareMetadata] can return. *)
Definition isReport (oldList newList : list Metadata) (r : ChangeReport) : Prop :=
  ∃ newOrder oldOrder,
    newOrder ≡ₚ map_to_list (toMap newList) ∧
    oldOrder ≡ₚ map_to_list (toMap oldList) ∧
    r = compareIn newOrder oldOrder oldList newList.
End Compare.

(** What [os.ReadFile] finds at a path. *)
Inductive ReadResult :=
| ReadNotExist
| ReadFails (err : string)
| ReadOk (data : string).

(** How a run of [main] ends: one of the [log.Fatal] calls, or the report
    written with the given bytes. *)
Inductive Outcome :=
| FatalUsage
| FatalReadOld (err : string)
| FatalParseOld (err : string)
| FatalReadNew (err : string)
| FatalParseNew (err : string)
| FatalMarshal (err : string)
| FatalWrite (err : string)
| Written (path : string) (data : string).

(** The files a run meets, and whether [os.WriteFile] fails. *)
Record Env := mkEnv {
  oldRead : ReadResult;
  newRead : ReadResult;
  writeError : option string
}.

Section Run.
(** [yaml.Unmarshal], [yaml.Marshal] and [json.MarshalIndent], and the
    order in which a [range] loop goes over a map. *)
Variable yaml_Unmarshal : string → string + list Metadata.
Variable yaml_Marshal : Metadata → string + string.
Variable json_MarshalIndent : ChangeReport → string + string.
Variable range : gmap string Metadata → list (string * Metadata).

(** [compareMetadata] with the maps ranged over by [range]. *)
Definition compareRanged (oldList newList : list Metadata) : ChangeReport :=
  compareIn yaml_Marshal (range (toMap newList)) (range (toMap oldList)) oldList newList.

(** The reading of the old file: a missing file is an empty list. *)
Definition readOld (env : Env) : Outcome + list Metadata :=
  match oldRead env with
  | ReadNotExist => inr []
  | ReadFails err => inl (FatalReadOld err)
  | ReadOk oldData =>
      match yaml_Unmarshal oldData with
      | inl err => inl (FatalParseOld err)
      | inr oldMetadata => inr oldMetadata
      end
  end.

(** The reading of the new file: every failure is fatal. *)
Definition readNew (env : Env) : Outcome + list Metadata :=
  match newRead env with
  | ReadNotExist => inl (FatalReadNew "file does not exist")
  | ReadFails err => inl (FatalReadNew err)
  | ReadOk newData =>
      match yaml_Unmarshal newData with
      | inl err => inl (FatalParseNew err)
      | inr newMetadata => inr newMetadata
      end
  end.

(** [main], given the values of the three flags. *)
Definition main (oldFile newFile outputFile : string) (env : Env) : Outcome :=
  if String.eqb oldFile "" || String.eqb newFile "" then FatalUsage
  else
    match readOld env with
    | inl fatal => fatal
    | inr oldMetadata =>
        match readNew env with
        | inl fatal => fatal
        | inr newMetadata =>
            let report := compareRanged oldMetadata newMetadata in
            match json_MarshalIndent report with
            | inl err => FatalMarshal err
            | inr reportJSON =>
                match writeError env with
                | Some err => FatalWrite err
                | None => Written outputFile reportJSON
                end
            end
        end
    end.
End Run.

End Differ.

(** * The vocabulary of the statements *)

(** Every node of the tree under [n], [n] first, in the order of the walk. *)
Fixpoint subnodes (n : Node) : list Node :=
  n ::
  match n with
  | NIdent _ | BasicLit _ _ => []
  | CompositeLit _ ty elts =>
      match ty with Some t => subnodes t | None => [] end ++ flat_map subnodes elts
  | KeyValueExpr k v => subnodes k ++ subnodes v
  | CallExpr fn args => subnodes fn ++ flat_map subnodes args
  | SelectorExpr x sel => subnodes x ++ [NIdent sel]
  | UnaryExpr _ x => subnodes x
  | BinaryExpr x _ y => subnodes x ++ subnodes y
  | FuncLit body => subnodes body
  | AssignStmt lhs _ rhs => flat_map subnodes lhs ++ flat_map subnodes rhs
  | ExprStmt x => subnodes x
  | ReturnStmt results => flat_map subnodes results
  | BlockStmt stmts => flat_map subnodes stmts
  | FuncDecl _ name body =>
      NIdent name :: match body with Some b => subnodes b | None => [] end
  | GenDecl specs => flat_map subnodes specs
  | ValueSpec names values => map NIdent names ++ flat_map subnodes values
  | File pkgname decls => NIdent pkgname :: flat_map subnodes decls
  end.

(** Closures of the shape the scanner uses four times: a test [pick] on the
    node; where it succeeds the result is stored and the children are
    skipped, where it fails the walk goes into the children. *)
Section FindVisitor.
Context {A S : Type} (pick : Node → option A) (inj : A → S).

Definition findVisitor (n : Node) (s : S) : Res (S * bool) :=
  Ok (match pick n with Some a => (inj a, false) | None => (s, true) end).

Definition outcome (l : list Node) (s s' : S) : Prop :=
  (s' = s ∧ Forall (λ m, pick m = None) l) ∨
  (∃ m a, m ∈ l ∧ pick m = Some a ∧ s' = inj a).

End FindVisitor.

(** The identifier a reference is resolved through: the identifier itself,
    or the selected identifier of a qualified reference. *)
Definition referenceOf (expr : Node) : option Ident :=
  match expr with
  | NIdent ident => Some ident
  | SelectorExpr _ sel => Some sel
  | _ => None
  end.

(** The kinds of constant value [constant.StringVal] accepts. *)
Definition isStringOrUnknown (v : ConstValue) : bool :=
  match v with
  | stringVal _ | unknownVal => true
  | _ => false
  end.

(** The type assertion to [*ast.KeyValueExpr]. *)
Definition isKeyValue (n : Node) : bool :=
  match n with KeyValueExpr _ _ => true | _ => false end.


(** Neither of the two shapes. *)
Definition otherShape (arg : Node) : Prop :=
  (∀ ident args, arg ≠ CallExpr (NIdent ident) args) ∧ (∀ ident, arg ≠ NIdent ident).

(** ** The tests the closures apply to a node *)

Section Picks.
Import Metagen.

(** The callee of a qualified call resolves into a package whose path ends
    in [meloshub/adapter]. *)
Definition inRegistryPackage (info : Info) (sel : Ident) : bool :=
  match ObjectOf info sel with
  | Some obj =>
      match Pkg obj with
      | Some p => Strings.HasSuffix (Path p) "meloshub/adapter"
      | None => false
      end
  | None => false
  end.

(** The test of [registerVisitor]. *)
Definition registerPick (info : Info) (n : Node) : option Node :=
  match n with
  | CallExpr (SelectorExpr _ sel) (a :: _) =>
      if String.eqb (Name sel) "Register" && inRegistryPackage info sel
      then Some a else None
  | _ => None
  end.

(** [m] is a call [q.Register(a, ...)] whose [Register] resolves into the
    registry's package; nothing is asked of the qualifier [q]. *)
Definition isRegistration (info : Info) (m a : Node) : Prop :=
  ∃ q sel rest,
    m = CallExpr (SelectorExpr q sel) (a :: rest) ∧
    Name sel = "Register" ∧ inRegistryPackage info sel = true.

(** The test of [assignVisitor]. *)
Definition assignPick (info : Info) (obj : Object) (n : Node) : option string :=
  match n with
  | AssignStmt [NIdent lhsIdent] _ [CallExpr (NIdent funIdent) _] =>
      match ObjectOf info lhsIdent with
      | Some o => if sameObject o obj then Some (Name funIdent) else None
      | None => None
      end
  | _ => None
  end.

(** [m] assigns a call of [callee] to the variable [obj], alone. *)
Definition assignsCall (info : Info) (obj : Object) (m : Node) (callee : string) : Prop :=
  ∃ lhsIdent tok funIdent args o,
    m = AssignStmt [NIdent lhsIdent] tok [CallExpr (NIdent funIdent) args] ∧
    ObjectOf info lhsIdent = Some o ∧ sameObject o obj = true ∧
    Name funIdent = callee.

(** The test of [declVisitor]. *)
Definition declPick (constructorName : string) (n : Node) : option FuncDeclT :=
  match asFuncDecl n with
  | Some funcDecl =>
      if String.eqb (Name (FuncName funcDecl)) constructorName
      then Some funcDecl else None
  | None => None
  end.

(** [file] holds the declaration [d]. *)
Definition declares (file : Node) (d : FuncDeclT) : Prop :=
  FuncDecl (Recv d) (FuncName d) (Body d) ∈ subnodes file.

(** The last step of [findConstructorFunc]: the declaration of a name. *)
Definition lookupDecl (file : Node) (constructorName : string) : Res (option FuncDeclT) :=
  if String.eqb constructorName "" then Ok None
  else Inspect (declVisitor constructorName) file None.

(** The type test of [metadataVisitor]. *)
Definition isCandidate (info : Info) (n : Node) : bool :=
  match n with
  | CompositeLit _ _ _ =>
      match TypeOf info n with
      | Some typ => Strings.HasSuffix (TypeString typ) "adapter.Metadata"
      | None => false
      end
  | _ => false
  end.

End Picks.

(** ** The entries of the Differ's report *)

(** The canonical serialization two records are compared by. *)
Definition serialized (yaml_Marshal : Metadata → string + string) (m : Metadata) : string :=
  Differ.bytesOf (yaml_Marshal m).

(** What one pass of the loop over [newMap] adds for an entry. *)
Definition addedOf (oldMap : gmap string Metadata) (entry : string * Metadata)
  : option Metadata :=
  match oldMap !! entry.1 with None => Some entry.2 | Some _ => None end.

Definition updatedOf (yaml_Marshal : Metadata → string + string)
    (oldMap : gmap string Metadata) (entry : string * Metadata)
  : option Differ.UpdateEntry :=
  match oldMap !! entry.1 with
  | Some oldMeta =>
      if negb (String.eqb (serialized yaml_Marshal oldMeta) (serialized yaml_Marshal entry.2))
      then Some (Differ.mkUpdateEntry oldMeta entry.2) else None
  | None => None
  end.

Definition removedOf (newMap : gmap string Metadata) (entry : string * Metadata)
  : option Metadata :=
  match newMap !! entry.1 with None => Some entry.2 | Some _ => None end.

(** ** Programs used as examples

    A registry package [github.com/meloshub/meloshub/adapter] and small
    adapter packages written against it. *)

Module Fixtures.
Import Metagen.

Definition quoted (body : string) : string := dquote +:+ body +:+ dquote.
Definition rawQuoted (body : string) : string := bquote +:+ body +:+ bquote.

Definition adapterPkg : Package :=
  mkPackage "github.com/meloshub/meloshub/adapter" "adapter".
Definition registerFn : Object := mkObject 1 "Register" (Some adapterPkg) Func.
Definition metadataT : GoType := Named (Some adapterPkg) "Metadata".

Definition str (s : string) : Node := BasicLit STRING (quoted s).
Definition field (pos : nat) (name : string) (v : Node) : Node :=
  KeyValueExpr (NIdent (mkIdent pos name)) v.
Definition qualified (pos : nat) (x name : string) : Node :=
  SelectorExpr (NIdent (mkIdent pos x)) (mkIdent (pos + 1) name).
Definition call0 (pos : nat) (name : string) : Node :=
  CallExpr (NIdent (mkIdent pos name)) [].

(** [adapter.Metadata{Id: id, Title: title}] with its brace at [pos]. *)
Definition metadataLit (pos : nat) (id title : string) : Node :=
  CompositeLit pos (Some (qualified (pos + 1) "adapter" "Metadata"))
    [field (pos + 3) "Id" (str id); field (pos + 4) "Title" (str title)].

(** Symbol resolution for the examples: [Register] is the registry's
    function wherever it is written, every composite literal is an
    [adapter.Metadata]. *)
Definition info0 : Info :=
  mkInfo (λ id, if String.eqb (Name id) "Register" then Some registerFn else None)
         (λ n, match n with CompositeLit _ _ _ => Some metadataT | _ => None end).

(** [func init() { adapter.Register(<arg>) }]. *)
Definition initDecl (pos : nat) (arg : Node) : Node :=
  FuncDecl None (mkIdent pos "init")
    (Some (BlockStmt [ExprStmt (CallExpr (qualified (pos + 1) "adapter" "Register") [arg])])).

(** A constructor with two records in its body:
    [func NewFoo() { primary := adapter.Metadata{Id: "first", ...};
                     fallback := adapter.Metadata{Id: "second", ...} }]. *)
Definition twoLiterals : Node :=
  BlockStmt [
    AssignStmt [NIdent (mkIdent 100 "primary")] DEFINE [metadataLit 110 "first" "First"];
    AssignStmt [NIdent (mkIdent 200 "fallback")] DEFINE [metadataLit 210 "second" "Second"]
  ].

(** A package of one file that registers the record [(id, title)]. *)
Definition adapterFile (ctor id title : string) : Node :=
  File (mkIdent 0 "plugin") [
    initDecl 10 (call0 20 ctor);
    FuncDecl None (mkIdent 30 ctor)
      (Some (BlockStmt [ReturnStmt [metadataLit 40 id title]]))
  ].

Definition adapterPackage (path ctor id title : string) : LoadedPackage :=
  mkLoadedPackage path ["plugin.go"] [adapterFile ctor id title] info0.

Definition pkgA : LoadedPackage := adapterPackage "example.com/plugins/a" "NewA" "dup" "A".
Definition pkgB : LoadedPackage := adapterPackage "example.com/plugins/b" "NewB" "dup" "B".

(** [const MaxRetries = 3] and a reference to it. *)
Definition maxRetries : Object := mkObject 7 "MaxRetries" None (Const (int64Val 3)).
Definition maxRetriesRef : Ident := mkIdent 300 "MaxRetries".
Definition infoConst : Info :=
  mkInfo (λ id, if String.eqb (Name id) "MaxRetries" then Some maxRetries
                else ObjectOf info0 id)
         (TypeOf info0).

(** A package whose record names the constant in one of its fields:
    [adapter.Metadata{Id: "foo", Retries: MaxRetries}]. *)
Definition retriesFile : Node :=
  File (mkIdent 0 "plugin") [
    initDecl 10 (call0 20 "NewFoo");
    FuncDecl None (mkIdent 30 "NewFoo")
      (Some (BlockStmt [ReturnStmt [
         CompositeLit 40 (Some (qualified 41 "adapter" "Metadata"))
           [field 43 "Id" (str "foo"); field 44 "Retries" (NIdent maxRetriesRef)]]]))
  ].
Definition retriesPackage : LoadedPackage :=
  mkLoadedPackage "example.com/plugins/foo" ["plugin.go"] [retriesFile] infoConst.

(** The elements of [adapter.Metadata{"foo", "Foo", "music", "1.0", "me",
    "a plugin"}]. *)
Definition positionalElts : list Node :=
  [str "foo"; str "Foo"; str "music"; str "1.0"; str "me"; str "a plugin"].

Definition published : list Metadata :=
  [mkMetadata "a" "A" "music" "1.0" "me" ""; mkMetadata "b" "B" "music" "1.0" "me" ""].

(** A parser that reads every file as [published]. *)
Definition parsePublished : string → string + list Metadata :=
  λ _, inr published.

(** A serializer for the examples: the six fields, one per line. *)
Definition marshalLines (m : Metadata) : string + string :=
  inr (String.concat (String "010"%char EmptyString)
         [Id m; Title m; Type_ m; Version m; Author m; Description m]).

Definition recA1 : Metadata := mkMetadata "a" "A1" "" "" "" "".
Definition recA2 : Metadata := mkMetadata "a" "A2" "" "" "" "".
Definition recB : Metadata := mkMetadata "b" "B" "" "" "" "".


(** [import . "github.com/meloshub/meloshub/adapter"] and
    [func init() { Register(NewFoo()) }]. *)
Definition dotImportBody : Node :=
  BlockStmt [ExprStmt (CallExpr (NIdent (mkIdent 11 "Register")) [call0 20 "NewFoo"])].

(** A call through a renamed import is found; a call of another package's
    [Register] is not. *)
Definition otherRegister : Object :=
  mkObject 2 "Register" (Some (mkPackage "example.com/metrics" "metrics")) Func.
Definition infoMetrics : Info :=
  mkInfo (λ id, if (NamePos id =? 12)%nat then Some otherRegister else ObjectOf info0 id)
         (TypeOf info0).

(** [func init() { adapter.Register(NewFoo()) }] and [func NewFoo()]. *)
Definition directFile : Node := adapterFile "NewFoo" "foo" "Foo".
Definition newFooDecl : FuncDeclT :=
  mkFuncDecl None (mkIdent 30 "NewFoo")
    (Some (BlockStmt [ReturnStmt [metadataLit 40 "foo" "Foo"]])).

(** [func init() { c := NewFoo(); adapter.Register(c) }] and [func NewFoo()];
    both occurrences of [c] resolve to one variable. *)
Definition varC : Object := mkObject 5 "c" None Var.
Definition infoVar : Info :=
  mkInfo (λ id, if String.eqb (Name id) "c" then Some varC else ObjectOf info0 id)
         (TypeOf info0).
Definition assignC : Node :=
  AssignStmt [NIdent (mkIdent 12 "c")] DEFINE [call0 14 "NewFoo"].
Definition indirectFile : Node :=
  File (mkIdent 0 "plugin") [
    FuncDecl None (mkIdent 10 "init")
      (Some (BlockStmt [
         assignC;
         ExprStmt (CallExpr (qualified 16 "adapter" "Register") [NIdent (mkIdent 19 "c")])]));
    FuncDecl None (mkIdent 30 "NewFoo")
      (Some (BlockStmt [ReturnStmt [metadataLit 40 "foo" "Foo"]]))
  ].

(** [const Version = "v1"], referenced as [Version] and as [meta.Version]. *)
Definition versionConst : Object :=
  mkObject 8 "Version" None (Const (stringVal "v1")).
Definition infoVersion : Info :=
  mkInfo (λ id, if String.eqb (Name id) "Version" then Some versionConst
                else ObjectOf info0 id)
         (TypeOf info0).

End Fixtures.

(** ** Further vocabulary *)

(** The results of a test [pick] along the walk of [ast.Inspect], in the
    order of the walk: the nodes under a node that passes the test are
    left out. *)
Section Hits.
Context {A : Type} (pick : Node → option A).

Definition hitIdent (id : Ident) : list A :=
  match pick (NIdent id) with Some a => [a] | None => [] end.

Fixpoint hits (n : Node) : list A :=
  match pick n with
  | Some a => [a]
  | None =>
      match n with
      | NIdent _ | BasicLit _ _ => []
      | CompositeLit _ ty elts =>
          match ty with Some t => hits t | None => [] end ++ flat_map hits elts
      | KeyValueExpr k v => hits k ++ hits v
      | CallExpr fn args => hits fn ++ flat_map hits args
      | SelectorExpr x sel => hits x ++ hitIdent sel
      | UnaryExpr _ x => hits x
      | BinaryExpr x _ y => hits x ++ hits y
      | FuncLit body => hits body
      | AssignStmt lhs _ rhs => flat_map hits lhs ++ flat_map hits rhs
      | ExprStmt x => hits x
      | ReturnStmt results => flat_map hits results
      | BlockStmt stmts => flat_map hits stmts
      | FuncDecl _ name body =>
          hitIdent name ++ match body with Some b => hits b | None => [] end
      | GenDecl specs => flat_map hits specs
      | ValueSpec names values => flat_map hitIdent names ++ flat_map hits values
      | File pkgname decls => hitIdent pkgname ++ flat_map hits decls
      end
  end.
End Hits.

(** The order of the output: by Id, bytewise. *)
Definition byId (a b : Metadata) : Prop := String.leb (Id a) (Id b) = true.

(** The six keys [parseCompositeLit] knows. *)
Definition knownField (keyName : string) : bool :=
  String.eqb keyName "Id" || String.eqb keyName "Title" || String.eqb keyName "Type" ||
  String.eqb keyName "Version" || String.eqb keyName "Author" ||
  String.eqb keyName "Description".

(** What the [switch] of [parseCompositeLit] does for each of the six
    keys; [other] stands for its result on any other key. *)
Definition setKnown (keyName value : string) (meta other : Metadata) : Metadata :=
  match keyName with
  | "Id" =>
      mkMetadata value (Title meta) (Type_ meta) (Version meta) (Author meta) (Description meta)
  | "Title" =>
      mkMetadata (Id meta) value (Type_ meta) (Version meta) (Author meta) (Description meta)
  | "Type" =>
      mkMetadata (Id meta) (Title meta) value (Version meta) (Author meta) (Description meta)
  | "Version" =>
      mkMetadata (Id meta) (Title meta) (Type_ meta) value (Author meta) (Description meta)
  | "Author" =>
      mkMetadata (Id meta) (Title meta) (Type_ meta) (Version meta) value (Description meta)
  | "Description" =>
      mkMetadata (Id meta) (Title meta) (Type_ meta) (Version meta) (Author meta) value
  | _ => other
  end.

(** A text that [strings.Trim] with the double quote leaves as it is. *)
Definition quoteFree (s : string) : Prop :=
  Strings.TrimLeft s dquote = s ∧ Strings.TrimRight s dquote = s.

(** Plain text: printable ASCII characters other than the double quote and
    the backslash. The interpreted string literal of a plain text is the
    text itself between double quotes, no character of it needing an
    escape. *)
Definition plainChar (c : ascii) : bool :=
  let n := nat_of_ascii c in
  (32 <=? n)%nat && (n <=? 126)%nat && negb (n =? 34)%nat && negb (n =? 92)%nat.

Fixpoint plainText (s : string) : bool :=
  match s with
  | EmptyString => true
  | String c s' => plainChar c && plainText s'
  end.

(** All six fields of a record are plain text. *)
Definition plainRecord (m : Metadata) : Prop :=
  plainText (Id m) = true ∧ plainText (Title m) = true ∧ plainText (Type_ m) = true ∧
  plainText (Version m) = true ∧ plainText (Author m) = true ∧
  plainText (Description m) = true.

(** The literal [adapter.Metadata{Id: "...", Title: "...", Type: "...",
    Version: "...", Author: "...", Description: "..."}] with every field of
    [m] written between double quotes as it is. For a record of plain text
    these are the interpreted string literals of its fields; a field that
    holds a double quote, a backslash or a control character is written
    otherwise in Go, and [literalOf] is not used for it. *)
Definition literalOf (pos : nat) (m : Metadata) : Node :=
  CompositeLit pos
    (Some (Fixtures.qualified (pos + 1) "adapter" "Metadata"))
    [Fixtures.field (pos + 3) "Id" (Fixtures.str (Id m));
     Fixtures.field (pos + 4) "Title" (Fixtures.str (Title m));
     Fixtures.field (pos + 5) "Type" (Fixtures.str (Type_ m));
     Fixtures.field (pos + 6) "Version" (Fixtures.str (Version m));
     Fixtures.field (pos + 7) "Author" (Fixtures.str (Author m));
     Fixtures.field (pos + 8) "Description" (Fixtures.str (Description m))].


(** A pair of an update, turned round. *)
Definition swapEntry (e : Differ.UpdateEntry) : Differ.UpdateEntry :=
  Differ.mkUpdateEntry (Differ.After e) (Differ.Before e).

(** The records of a map, in the order [map_to_list] gives. *)
Definition recordsOf (m : gmap string Metadata) : list Metadata :=
  (map_to_list m).*2.

(** The chain from an initializer of a file to a record. *)
Definition tracedIn (info : Info) (file : Node) (m : Metadata) : Prop :=
  ∃ init arg ctor,
    declares file init ∧ Name (FuncName init) = "init" ∧
    Metagen.findRegisterCallArgument info (Body init) = Ok (Some arg) ∧
    Metagen.findConstructorFunc info file arg = Ok (Some ctor) ∧
    declares file ctor ∧
    Metagen.findMetadataInFuncBody info (Body ctor) = Ok (Some m).

(** Declarations none of which is, or holds, a declaration named [init]. *)
Definition noInitializer (decls : list Node) : Prop :=
  Forall (λ m, ∀ d, asFuncDecl m = Some d → Name (FuncName d) ≠ "init")
         (flat_map subnodes decls).

(** Files that yield no record (and do not panic). *)
Definition passedOver (info : Info) (files : list Node) : Prop :=
  Forall (λ file, ∃ l, Metagen.findMetadataInFile info file = Ok (None, l)) files.

(** What a package adds to the scan: nothing when it is filtered out or
    none of its files yields a record, else the record of the first of its
    files that yields one. *)
Definition contributes (pkg : Metagen.LoadedPackage) (r : option Metadata) : Prop :=
  match r with
  | None =>
      Metagen.isIrrelevantPackage pkg = true ∨
      passedOver (Metagen.TypesInfo pkg) (Metagen.Syntax pkg)
  | Some m =>
      Metagen.isIrrelevantPackage pkg = false ∧ Id m ≠ "" ∧
      ∃ pre file post l,
        Metagen.Syntax pkg = pre ++ file :: post ∧
        passedOver (Metagen.TypesInfo pkg) pre ∧
        Metagen.findMetadataInFile (Metagen.TypesInfo pkg) file = Ok (Some m, l)
  end.

(** More example data. *)
Module Samples.
Import Metagen Fixtures.

Definition recFoo : Metadata := mkMetadata "foo" "Foo" "music" "1.0" "me" "a plugin".
Definition recBar : Metadata := mkMetadata "bar" "Bar" "music" "2.0" "you" "".

(** A package under a [tools] directory, and one without Go files. *)
Definition toolPackage : LoadedPackage :=
  mkLoadedPackage "github.com/meloshub/meloshub/tools/metagen" ["main.go"]
    [adapterFile "NewTool" "tool" "Tool"] info0.
Definition emptyPackage : LoadedPackage :=
  mkLoadedPackage "example.com/plugins/empty" [] [] info0.

(** [func init() { adapter.Register(NewA()); adapter.Register(NewB()) }]. *)
Definition twoRegistrations : Node :=
  BlockStmt [
    ExprStmt (CallExpr (qualified 11 "adapter" "Register") [call0 14 "NewA"]);
    ExprStmt (CallExpr (qualified 21 "adapter" "Register") [call0 24 "NewB"])
  ].

(** A function and, after it, a method of the same name. *)
Definition funcNewFoo : FuncDeclT :=
  mkFuncDecl None (mkIdent 30 "NewFoo")
    (Some (BlockStmt [ReturnStmt [metadataLit 40 "foo" "Foo"]])).
Definition methodNewFoo : FuncDeclT :=
  mkFuncDecl (Some "Factory") (mkIdent 60 "NewFoo")
    (Some (BlockStmt [ReturnStmt [metadataLit 70 "other" "Other"]])).
Definition shadowedFile : Node :=
  File (mkIdent 0 "plugin") [
    initDecl 10 (call0 20 "NewFoo");
    FuncDecl (Recv funcNewFoo) (FuncName funcNewFoo) (Body funcNewFoo);
    FuncDecl (Recv methodNewFoo) (FuncName methodNewFoo) (Body methodNewFoo)
  ].

(** A file whose initializer registers nothing:
    [func init() { setup() }] and [func NewFoo()]. *)
Definition idleBody : Node := BlockStmt [ExprStmt (call0 12 "setup")].
Definition idleInit : FuncDeclT := mkFuncDecl None (mkIdent 10 "init") (Some idleBody).
Definition idleFile : Node :=
  File (mkIdent 0 "plugin") [
    FuncDecl (Recv idleInit) (FuncName idleInit) (Body idleInit);
    FuncDecl None (mkIdent 30 "NewFoo")
      (Some (BlockStmt [ReturnStmt [metadataLit 40 "foo" "Foo"]]))
  ].

(** Symbol resolution for [shadowedFile]: the callee of [NewFoo()] and the
    name of the function's declaration are the function, the name of the
    method's declaration is the method. *)
Definition newFooFn : Object := mkObject 3 "NewFoo" None Func.
Definition newFooMethod : Object := mkObject 4 "NewFoo" None Func.
Definition infoShadowed : Info :=
  mkInfo (λ id, if String.eqb (Name id) "NewFoo" then
                  if (NamePos id =? 60)%nat then Some newFooMethod else Some newFooFn
                else ObjectOf info0 id)
         (TypeOf info0).

(** Two variables of the same spelling:
    [func init() { c := NewFoo(); adapter.Register(c) }], [func NewFoo()],
    [func helper() { c := NewBar(); use(c) }] and [func NewBar()]. The [c]
    of [helper] is another variable than the [c] of [init]. *)
Definition otherC : Object := mkObject 6 "c" None Var.
Definition infoTwoVars : Info :=
  mkInfo (λ id, if String.eqb (Name id) "c" then
                  if (NamePos id <? 50)%nat then Some varC else Some otherC
                else ObjectOf info0 id)
         (TypeOf info0).
Definition assignOtherC : Node :=
  AssignStmt [NIdent (mkIdent 52 "c")] DEFINE [call0 54 "NewBar"].
Definition twoVarsFile : Node :=
  File (mkIdent 0 "plugin") [
    FuncDecl None (mkIdent 10 "init")
      (Some (BlockStmt [
         assignC;
         ExprStmt (CallExpr (qualified 16 "adapter" "Register") [NIdent (mkIdent 19 "c")])]));
    FuncDecl None (mkIdent 30 "NewFoo")
      (Some (BlockStmt [ReturnStmt [metadataLit 40 "foo" "Foo"]]));
    FuncDecl None (mkIdent 50 "helper")
      (Some (BlockStmt [
         assignOtherC;
         ExprStmt (CallExpr (NIdent (mkIdent 56 "use")) [NIdent (mkIdent 58 "c")])]));
    FuncDecl None (mkIdent 70 "NewBar")
      (Some (BlockStmt [ReturnStmt [metadataLit 80 "bar" "Bar"]]))
  ].

(** [func init() { adapter.Register(42) }] and [func NewFoo()]. *)
Definition untraceableFile : Node :=
  File (mkIdent 0 "plugin") [
    initDecl 10 (BasicLit INT "42");
    FuncDecl None (mkIdent 30 "NewFoo")
      (Some (BlockStmt [ReturnStmt [metadataLit 40 "foo" "Foo"]]))
  ].

(** Two initializers in one file: [func init() { adapter.Register(42) }],
    [func init() { adapter.Register(NewFoo()) }] and [func NewFoo()]. *)
Definition twoInitsFile : Node :=
  File (mkIdent 0 "plugin") [
    initDecl 10 (BasicLit INT "42");
    initDecl 20 (call0 24 "NewFoo");
    FuncDecl None (mkIdent 30 "NewFoo")
      (Some (BlockStmt [ReturnStmt [metadataLit 40 "foo" "Foo"]]))
  ].

(** A constructor declared without body, as a function implemented outside
    Go is: [func init() { adapter.Register(NewFoo()) }] and
    [func NewFoo() adapter.Adapter]. *)
Definition externFile : Node :=
  File (mkIdent 0 "plugin") [
    initDecl 10 (call0 20 "NewFoo");
    FuncDecl None (mkIdent 30 "NewFoo") None
  ].

(** A parser that reads the file names of the examples. *)
Definition parseSample (data : string) : string + list Metadata :=
  if String.eqb data "old" then inr [recA1]
  else if String.eqb data "new" then inr [recA2; recB]
  else inl "yaml: unmarshal error".

Definition marshalReport (r : Differ.ChangeReport) : string + string :=
  inr (String.concat ","
         (map Id (Differ.Added r) ++ ["|"] ++ map Id (Differ.Removed r) ++ ["|"] ++
          map (λ e, Id (Differ.Before e)) (Differ.Updated r))).


(** A marshaller for the examples: the Ids, comma separated. *)
Definition marshalIds (l : list Metadata) : string + string :=
  inr (String.concat "," (map Id l)).

End Samples.

(** * Properties *)

(** ** The syntax tree and [ast.Inspect] *)

Lemma flat_map_NIdent (l : list Ident) :
  flat_map subnodes (map NIdent l) = map NIdent l.
Proof. induction l as [|x l IH]; simpl; [done | by rewrite IH]. Qed.

Lemma subnodes_children (n : Node) :
  subnodes n = n :: flat_map subnodes (children n).
Proof.
  destruct n as [| | ? [t|] ? | | | | | | | | | | | ? ? [b|] | | |]; simpl;
    rewrite ?flat_map_app, ?flat_map_NIdent, ?app_nil_r; reflexivity.
Qed.

Lemma subnodes_self (n : Node) : n ∈ subnodes n.
Proof. rewrite subnodes_children. apply list_elem_of_here. Qed.

(** Induction on a node from its children. *)
Lemma Node_children_ind (P : Node → Prop) :
  (∀ n, Forall P (children n) → P n) → ∀ n, P n.
Proof.
  intros step.
  assert (idents : ∀ names, Forall P (map NIdent names)).
  { induction names as [|x names IHn]; simpl; constructor;
      [apply step; constructor | exact IHn]. }
  fix IH 1. intros n. apply step.
  pose (all := fix all (l : list Node) : Forall P l :=
          match l with
          | [] => @List.Forall_nil Node P
          | x :: l' => @List.Forall_cons Node P x l' (IH x) (all l')
          end).
  destruct n as [| | ? [t|] ? | | | | | | | | | | | ? ? [b|] | | |]; simpl;
    repeat first [ apply List.Forall_nil | apply List.Forall_cons | apply Forall_app_2
                 | apply idents | apply all
                 | match goal with |- P (NIdent _) => apply step; apply List.Forall_nil end
                 | apply IH ].
Qed.

Section InspectFacts.
Context {S : Type} (f : Node → S → Res (S * bool)).

Lemma InspectList_app (l1 l2 : list Node) (s : S) :
  InspectList f (l1 ++ l2) s = (s1 ← InspectList f l1 s; InspectList f l2 s1).
Proof.
  revert s. induction l1 as [|x l1 IH]; intros s; simpl; [done|].
  destruct (Inspect f x s) as [s'|msg]; simpl; [apply IH | done].
Qed.

Lemma Inspect_ident (x : Ident) (s : S) :
  Inspect f (NIdent x) s = visitIdent f x s.
Proof.
  unfold visitIdent. simpl.
  destruct (f (NIdent x) s) as [[s0 [|]]|msg]; reflexivity.
Qed.

Lemma InspectList_idents (l : list Ident) (s : S) :
  InspectList f (map NIdent l) s =
  (fix walkIdents (l : list Ident) (s : S) {struct l} : Res S :=
     match l with
     | [] => Ok s
     | x :: l' => s' ← visitIdent f x s; walkIdents l' s'
     end) l s.
Proof.
  revert s. induction l as [|x l IH]; intros s; [done|].
  cbn [map InspectList]. rewrite Inspect_ident.
  destruct (visitIdent f x s) as [s'|msg]; simpl; [apply IH | done].
Qed.

Lemma InspectList_walk (l : list Node) (s : S) :
  InspectList f l s =
  (fix walkList (l : list Node) (s : S) {struct l} : Res S :=
     match l with
     | [] => Ok s
     | x :: l' => s' ← Inspect f x s; walkList l' s'
     end) l s.
Proof.
  revert s. induction l as [|x l IH]; intros s; [done|].
  simpl. destruct (Inspect f x s) as [s'|msg]; simpl; [apply IH | done].
Qed.

(** [ast.Inspect] in one equation: the closure first, then the children
    unless it answered [false]. *)
Lemma Inspect_unfold (n : Node) (s : S) :
  Inspect f n s =
  ('(s0, descend) ← f n s;
   if descend : bool then InspectList f (children n) s0 else Ok s0).
Proof.
  assert (ret_r : ∀ m : Res S, (m ≫= λ s', Ok s') = m) by (by intros [|]).
  destruct n as [| | ? [t|] ? | | | | | | | | | | | ? ? [b|] | | |];
    cbn -[visitIdent InspectList];
    destruct (f _ s) as [[s0 [|]]|msg]; cbn -[visitIdent InspectList];
    try reflexivity;
    rewrite <- ?InspectList_walk, <- ?InspectList_idents;
    rewrite ?InspectList_app; cbn [InspectList];
    rewrite ?Inspect_ident, ?ret_r; try reflexivity.
  all: repeat match goal with
       | |- context [Inspect f ?x ?s] =>
           destruct (Inspect f x s); cbn -[visitIdent InspectList Inspect];
           rewrite ?Inspect_ident, ?ret_r; try reflexivity
       | |- context [visitIdent f ?x ?s] =>
           destruct (visitIdent f x s); cbn -[visitIdent InspectList Inspect];
           rewrite ?Inspect_ident, ?ret_r; try reflexivity
       end.
Qed.

(** A closure that lets every node of the tree pass leaves the state as
    it was. *)
Lemma Inspect_pass (n : Node) :
  ∀ s, Forall (λ m, ∀ s, f m s = Ok (s, true)) (subnodes n) → Inspect f n s = Ok s.
Proof.
  induction n as [n IH] using Node_children_ind. intros s Hall.
  rewrite subnodes_children in Hall. apply Forall_cons_1 in Hall as [Hn Hrest].
  rewrite Inspect_unfold, Hn. simpl.
  revert s Hrest. induction IH as [|c cs Hc _ IHcs]; intros s Hrest; simpl; [done|].
  simpl in Hrest. apply Forall_app in Hrest as [H1 H2].
  rewrite (Hc s H1). simpl. by apply IHcs.
Qed.
End InspectFacts.

Lemma bind_Ok {A B : Type} (a : A) (k : A → Res B) : (Ok a ≫= k) = k a.
Proof. reflexivity. Qed.

Lemma Inspect_ext {S : Type} (f g : Node → S → Res (S * bool)) :
  (∀ n s, f n s = g n s) → ∀ n s, Inspect f n s = Inspect g n s.
Proof.
  intros Hfg. induction n as [n IH] using Node_children_ind. intros s.
  rewrite !Inspect_unfold, Hfg.
  destruct (g n s) as [[s0 [|]]|msg]; simpl; try reflexivity.
  clear s. revert s0.
  induction IH as [|c cs Hc _ IHcs]; intros s; simpl; [done|].
  rewrite Hc. destruct (Inspect g c s); simpl; [apply IHcs | done].
Qed.

Section Find.
Context {A S : Type} (pick : Node → option A) (inj : A → S).

Lemma outcome_app (l1 l2 : list Node) (s s1 s2 : S) :
  outcome pick inj l1 s s1 → outcome pick inj l2 s1 s2 → outcome pick inj (l1 ++ l2) s s2.
Proof.
  intros H1 [[-> Hn2]|(m & a & Hm & Hp & ->)].
  - destruct H1 as [[-> Hn1]|(m & a & Hm & Hp & ->)].
    + left. split; [done | by apply Forall_app_2].
    + right. exists m, a. rewrite elem_of_app. auto.
  - right. exists m, a. rewrite elem_of_app. auto.
Qed.

(** The walk never panics; it ends either with the state it started from,
    no node of the tree passing the test, or with the result of the test
    at some node of the tree. *)
Lemma Inspect_find (n : Node) :
  ∀ s, ∃ s', Inspect (findVisitor pick inj) n s = Ok s' ∧ outcome pick inj (subnodes n) s s'.
Proof.
  induction n as [n IH] using Node_children_ind. intros s.
  rewrite Inspect_unfold, subnodes_children.
  destruct (pick n) as [a|] eqn:Hp.
  { replace (findVisitor pick inj n s) with (@Ok (S * bool) (inj a, false))
      by (unfold findVisitor; by rewrite Hp).
    exists (inj a). split; [done|]. right. exists n, a.
    split; [apply list_elem_of_here | done]. }
  replace (findVisitor pick inj n s) with (@Ok (S * bool) (s, true))
    by (unfold findVisitor; by rewrite Hp).
  rewrite bind_Ok.
  assert (Hlist : ∀ s, ∃ s', InspectList (findVisitor pick inj) (children n) s = Ok s' ∧
                       outcome pick inj (flat_map subnodes (children n)) s s').
  { clear Hp. induction IH as [|c cs Hc _ IHcs]; intros s0; cbn [InspectList flat_map].
    - exists s0. split; [done|]. left. by split.
    - destruct (Hc s0) as (s1 & -> & H1). rewrite bind_Ok.
      destruct (IHcs s1) as (s2 & -> & H2).
      exists s2. split; [done|]. by eapply outcome_app. }
  destruct (Hlist s) as (s' & -> & Hout). exists s'. split; [done|].
  destruct Hout as [[-> Hn]|(m & a & Hm & Hpm & ->)].
  - left. split; [done|]. by constructor.
  - right. exists m, a. split; [by apply list_elem_of_further | done].
Qed.

Lemma Inspect_find_none (n : Node) (s : S) :
  Forall (λ m, pick m = None) (subnodes n) → Inspect (findVisitor pick inj) n s = Ok s.
Proof.
  intros Hall. destruct (Inspect_find n s) as (s' & -> & [[-> _]|(m & a & Hm & Hp & _)]).
  - done.
  - rewrite Forall_forall in Hall. rewrite (Hall m Hm) in Hp. done.
Qed.

Lemma Inspect_find_some (n : Node) (s : S) (m : Node) :
  m ∈ subnodes n → is_Some (pick m) →
  ∃ m' a, m' ∈ subnodes n ∧ pick m' = Some a ∧ Inspect (findVisitor pick inj) n s = Ok (inj a).
Proof.
  intros Hm [a Ha]. destruct (Inspect_find n s) as (s' & -> & [[_ Hn]|(m' & a' & ? & ? & ->)]).
  - rewrite Forall_forall in Hn. rewrite (Hn m Hm) in Ha. done.
  - by exists m', a'.
Qed.
End Find.

(** ** Suffixes of strings *)

Section StringFacts.

Lemma app_cons (x : ascii) (a b : string) : String x a +:+ b = String x (a +:+ b).
Proof. reflexivity. Qed.

Lemma app_empty (b : string) : EmptyString +:+ b = b.
Proof. reflexivity. Qed.












End StringFacts.

(** ** The Constant/Literal Resolver *)

Section Resolver.
Import Metagen Fixtures.

Lemma TrimLeft_length (s cutset : string) :
  String.length (Strings.TrimLeft s cutset) ≤ String.length s.
Proof.
  induction s as [|c s IH]; simpl; [done|].
  destruct (Strings.inCutset c cutset); simpl; lia.
Qed.

Lemma TrimLeft_stable_app (s t cutset : string) :
  s ≠ EmptyString → Strings.TrimLeft s cutset = s →
  Strings.TrimLeft (s +:+ t) cutset = s +:+ t.
Proof.
  destruct s as [|c s]; [done|]. intros _. rewrite app_cons. simpl.
  destruct (Strings.inCutset c cutset); [|done].
  intros Heq. pose proof (TrimLeft_length s cutset) as Hlen.
  rewrite Heq in Hlen. simpl in Hlen. lia.
Qed.

Lemma TrimRight_app_cut (s cutset : string) (c : ascii) :
  Strings.inCutset c cutset = true →
  Strings.TrimRight (s +:+ String c EmptyString) cutset = Strings.TrimRight s cutset.
Proof.
  intros Hc. induction s as [|x s IH]; rewrite ?app_cons, ?app_empty; simpl.
  - by rewrite Hc.
  - by rewrite IH.
Qed.

(** An interpreted literal whose text neither starts nor ends with a double
    quote inside its quotes comes back as that text. *)
Lemma getExprValue_interpreted_literal (info : Info) (body : string) :
  Strings.TrimLeft body dquote = body →
  Strings.TrimRight body dquote = body →
  getExprValue info (BasicLit STRING (quoted body)) = Ok body.
Proof.
  intros Hleft Hright. unfold getExprValue, quoted, Strings.Trim. simpl. f_equal.
  rewrite app_empty.
  destruct (decide (body = EmptyString)) as [->|Hne]; [reflexivity|].
  rewrite TrimLeft_stable_app by done.
  unfold dquote at 1. by rewrite TrimRight_app_cut.
Qed.

(** A reference to a string constant, direct or qualified, gives the
    constant's value. *)
Lemma getExprValue_string_constant (info : Info) (expr : Node) (ident : Ident)
    (obj : Object) (value : string) :
  referenceOf expr = Some ident →
  ObjectOf info ident = Some obj →
  Kind obj = Const (stringVal value) →
  getExprValue info expr = Ok value.
Proof.
  intros Href Hobj Hkind.
  destruct expr; try done; injection Href as ->; simpl; by rewrite Hobj, Hkind.
Qed.

(** What is neither a literal nor a reference gives the empty string, and
    so does a literal that is not a string. *)
Lemma getExprValue_unresolved (info : Info) (expr : Node) :
  referenceOf expr = None →
  (∀ value, expr ≠ BasicLit STRING value) →
  getExprValue info expr = Ok "".
Proof.
  intros Href Hlit. destruct expr; try done. simpl.
  destruct (decide (kind = STRING)) as [->|]; [|done]. by destruct (Hlit value).
Qed.

(** [getExprValue] panics exactly on a reference to a constant whose value
    is neither a string nor unknown. *)
Lemma getExprValue_panics_iff (info : Info) (expr : Node) (msg : string) :
  getExprValue info expr = Panic msg ↔
  ∃ ident obj v,
    referenceOf expr = Some ident ∧ ObjectOf info ident = Some obj ∧
    Kind obj = Const v ∧ isStringOrUnknown v = false ∧ msg = "not a String".
Proof.
  split.
  - destruct expr; simpl; try done.
    + destruct (ObjectOf info id) as [obj|] eqn:Hobj; [|done].
      destruct (Kind obj) as [v| | | | | |] eqn:Hkind; try done.
      destruct v; simpl; try done; intros [= <-]; by eexists id, obj, _.
    + by destruct (decide (kind = STRING)).
    + destruct (ObjectOf info sel) as [obj|] eqn:Hobj; [|done].
      destruct (Kind obj) as [v| | | | | |] eqn:Hkind; try done.
      destruct v; simpl; try done; intros [= <-]; by eexists sel, obj, _.
  - intros (ident & obj & v & Href & Hobj & Hkind & Hv & ->).
    destruct expr; try done; injection Href as ->; simpl;
      rewrite Hobj, Hkind; by destruct v.
Qed.

(** The resolver scenario of the specification. *)
Example getExprValue_scenario :
  getExprValue infoVersion (NIdent (mkIdent 60 "Version")) = Ok "v1" ∧
  getExprValue infoVersion (qualified 60 "meta" "Version") = Ok "v1" ∧
  getExprValue infoVersion (BinaryExpr (str "v") ADD (str "1")) = Ok "" ∧
  getExprValue infoVersion (str "v1") = Ok "v1".
Proof. repeat split. Qed.

(** C8. A raw string literal comes back with its back quotes, and a literal
    that ends in an escaped quote loses that quote too: [getExprValue]
    trims double quotes from both ends of the source text and nothing else. *)
Theorem getExprValue_raw_literal :
  getExprValue info0 (BasicLit STRING (rawQuoted "v1")) = Ok (rawQuoted "v1") ∧
  rawQuoted "v1" ≠ "v1" ∧
  getExprValue info0 (BasicLit STRING (quoted ("say \" +:+ quoted "hi\")))
    = Ok ("say \" +:+ dquote +:+ "hi\").
Proof. repeat split; try reflexivity. discriminate. Qed.

(** C9. A reference to a constant that is not a string makes
    [getExprValue] panic, and with it the scan of the package and the run. *)
Theorem getExprValue_panics_on_int_constant :
  getExprValue infoConst (NIdent maxRetriesRef) = Panic "not a String" ∧
  getExprValue infoConst (SelectorExpr (NIdent (mkIdent 299 "limits")) maxRetriesRef)
    = Panic "not a String" ∧
  findMetadataInPackage retriesPackage = Panic "not a String" ∧
  ∀ yaml_Unmarshal yaml_Marshal env,
    main yaml_Unmarshal yaml_Marshal [retriesPackage] "adapters.yaml" env
    = Crashed "not a String".
Proof. repeat split. Qed.

End Resolver.

(** ** The Metadata Literal Extractor *)

Section Extractor.
Import Metagen Fixtures.

Lemma parseElts_key_values (info : Info) (elts : list Node) :
  ∀ meta, parseElts info elts meta = parseElts info (List.filter isKeyValue elts) meta.
Proof.
  induction elts as [|el elts IH]; intros meta; [done|].
  destruct el; simpl; try apply IH.
  destruct (getExprValue info _); simpl; [apply IH | done].
Qed.

Lemma parseElts_positional (info : Info) (elts : list Node) (meta : Metadata) :
  Forall (λ el, isKeyValue el = false) elts → parseElts info elts meta = Ok meta.
Proof.
  intros Hpos. rewrite parseElts_key_values.
  replace (List.filter isKeyValue elts) with (@nil Node); [done|].
  induction Hpos as [|el elts Hel _ IH]; simpl; [done | by rewrite Hel].
Qed.

(** C10. Only the key-value elements of a literal are read; a literal
    written with positional initializers yields no field and no record,
    whatever strings it holds, and the walk goes on past it. *)
Theorem parseCompositeLit_positional (info : Info) (lbrace : nat)
    (ty : option Node) (elts : list Node) (foundMeta : option Metadata) :
  (∀ meta, parseElts info elts meta = parseElts info (List.filter isKeyValue elts) meta) ∧
  (Forall (λ el, isKeyValue el = false) elts →
   parseElts info elts zeroMetadata = Ok zeroMetadata ∧
   parseCompositeLit info (CompositeLit lbrace ty elts) = Ok None ∧
   metadataVisitor info (CompositeLit lbrace ty elts) foundMeta = Ok (foundMeta, true)).
Proof.
  split; [apply parseElts_key_values|]. intros Hpos.
  assert (Hparse : parseCompositeLit info (CompositeLit lbrace ty elts) = Ok None).
  { unfold parseCompositeLit. by rewrite parseElts_positional. }
  split; [by apply parseElts_positional|]. split; [done|].
  unfold metadataVisitor. rewrite Hparse.
  destruct (TypeOf info _) as [typ|]; [|done].
  by destruct (Strings.HasSuffix _ _).
Qed.

Lemma parseCompositeLit_positional_witness :
  Forall (λ el, isKeyValue el = false) positionalElts ∧
  (parseElts info0 positionalElts zeroMetadata = Ok zeroMetadata ∧
   parseCompositeLit info0
     (CompositeLit 40 (Some (qualified 41 "adapter" "Metadata")) positionalElts) = Ok None ∧
   metadataVisitor info0
     (CompositeLit 40 (Some (qualified 41 "adapter" "Metadata")) positionalElts) None
   = Ok (None, true)).
Proof.
  split; [repeat constructor|].
  apply (proj2 (parseCompositeLit_positional info0 40
                  (Some (qualified 41 "adapter" "Metadata")) positionalElts None)).
  repeat constructor.
Defined.

Lemma metadataVisitor_not_candidate (info : Info) (n : Node) (s : option Metadata) :
  isCandidate info n = false → metadataVisitor info n s = Ok (s, true).
Proof.
  unfold isCandidate, metadataVisitor. destruct n; try done.
  destruct (TypeOf info _) as [typ|]; [|done]. by intros ->.
Qed.

Lemma metadataVisitor_candidate (info : Info) (n : Node) (s : option Metadata) :
  isCandidate info n = true →
  metadataVisitor info n s =
  (meta ← parseCompositeLit info n;
   Ok (match meta with Some m => (Some m, false) | None => (s, true) end)).
Proof.
  unfold isCandidate, metadataVisitor. destruct n; try done.
  destruct (TypeOf info _) as [typ|]; [|done]. intros ->.
  destruct (parseCompositeLit info _) as [[m|]|msg]; reflexivity.
Qed.

(** A body without a candidate yields no record. *)
Lemma findMetadataInFuncBody_no_candidate (info : Info) (body : Node) :
  Forall (λ m, isCandidate info m = false) (subnodes body) →
  findMetadataInFuncBody info (Some body) = Ok None.
Proof.
  intros Hall. unfold findMetadataInFuncBody, InspectBlock. apply Inspect_pass.
  eapply Forall_impl; [exact Hall|]. intros m Hm s.
  by apply metadataVisitor_not_candidate.
Qed.

(** An accepted literal ends the walk of its own subtree only. *)
Lemma Inspect_accepted (info : Info) (lit : Node) (m : Metadata) (s : option Metadata) :
  isCandidate info lit = true →
  parseCompositeLit info lit = Ok (Some m) →
  Inspect (metadataVisitor info) lit s = Ok (Some m).
Proof.
  intros Hc Hp. by rewrite Inspect_unfold, metadataVisitor_candidate, Hp.
Qed.

(** Of two statements that each hold a valid record, the second gives the
    result. *)
Lemma findMetadataInFuncBody_second_statement (info : Info) (lit1 lit2 : Node)
    (m1 m2 : Metadata) :
  isCandidate info lit1 = true → parseCompositeLit info lit1 = Ok (Some m1) →
  isCandidate info lit2 = true → parseCompositeLit info lit2 = Ok (Some m2) →
  findMetadataInFuncBody info (Some (BlockStmt [ExprStmt lit1; ExprStmt lit2]))
  = Ok (Some m2).
Proof.
  intros Hc1 Hp1 Hc2 Hp2. unfold findMetadataInFuncBody, InspectBlock.
  rewrite Inspect_unfold. cbn [metadataVisitor children InspectList].
  rewrite bind_Ok, Inspect_unfold. cbn [metadataVisitor children InspectList].
  rewrite bind_Ok, (Inspect_accepted info lit1 m1) by done. rewrite !bind_Ok.
  rewrite Inspect_unfold. cbn [metadataVisitor children InspectList].
  rewrite bind_Ok, (Inspect_accepted info lit2 m2) by done. reflexivity.
Qed.

(** C2. With two valid records in one body the walk does not stop at the
    first: the closure's [false] only skips the children of the accepted
    literal, the second literal is visited and replaces the first. *)
Theorem findMetadataInFuncBody_returns_last :
  parseCompositeLit info0 (metadataLit 110 "first" "First")
    = Ok (Some (mkMetadata "first" "First" "" "" "" "")) ∧
  parseCompositeLit info0 (metadataLit 210 "second" "Second")
    = Ok (Some (mkMetadata "second" "Second" "" "" "" "")) ∧
  findMetadataInFuncBody info0 (Some twoLiterals)
    = Ok (Some (mkMetadata "second" "Second" "" "" "" "")).
Proof. repeat split. Qed.

End Extractor.

(** ** The Conflict Checker *)

Section ConflictChecker.
Import Metagen Fixtures.

Lemma indexMap_insert (m : gmap string bool) (k k' : string) :
  indexMap (<[k := true]> m) k' = if decide (k = k') then true else indexMap m k'.
Proof.
  unfold indexMap. rewrite lookup_insert. by destruct (decide (k = k')).
Qed.

(** The loop fails exactly when an Id of the scan occurs twice, or is in the
    set it starts from; the set of the earlier snapshot plays no part. *)
Lemma checkLoop_None (existingIdSet : gmap string bool) (newMetadata : list Metadata) :
  ∀ newIdSet,
    checkLoop existingIdSet newMetadata newIdSet = None ↔
    NoDup (Id <$> newMetadata) ∧
    Forall (λ meta, indexMap newIdSet (Id meta) = false) newMetadata.
Proof.
  induction newMetadata as [|meta rest IH]; intros newIdSet; simpl.
  { split; [intros _; split; constructor | done]. }
  rewrite NoDup_cons, Forall_cons.
  assert (Hsame : ∀ (b : bool) (x : option Error), (if b then x else x) = x)
    by (by intros [|]).
  rewrite Hsame.
  destruct (indexMap newIdSet (Id meta)) eqn:Hseen.
  { split; [done | intros (_ & ? & _); done]. }
  rewrite IH, !Forall_forall. split.
  - intros (Hnd & Hall).
    repeat split; try done.
    + intros (m & Hm & Hin)%list_elem_of_fmap.
      specialize (Hall m Hin). rewrite indexMap_insert, <- Hm in Hall.
      by rewrite decide_True in Hall.
    + intros m Hin. specialize (Hall m Hin). rewrite indexMap_insert in Hall.
      by destruct (decide (Id meta = Id m)).
  - intros ((Hnotin & Hnd) & _ & Hall). split; [done|].
    intros m Hin. rewrite indexMap_insert.
    destruct (decide (Id meta = Id m)) as [Heq|]; [|by apply Hall].
    destruct Hnotin. rewrite Heq. apply list_elem_of_fmap. eauto.
Qed.

Lemma checkLoop_error (existingIdSet : gmap string bool) (newMetadata : list Metadata) :
  ∀ newIdSet e,
    checkLoop existingIdSet newMetadata newIdSet = Some e →
    ∃ meta, meta ∈ newMetadata ∧ e = ErrDuplicateId (Id meta).
Proof.
  induction newMetadata as [|meta rest IH]; intros newIdSet e; simpl; [done|].
  assert (Hsame : ∀ (b : bool) (x : option Error), (if b then x else x) = x)
    by (by intros [|]).
  rewrite Hsame.
  destruct (indexMap newIdSet (Id meta)).
  - intros [= <-]. exists meta. split; [apply list_elem_of_here | done].
  - intros (m & Hin & ->)%IH. exists m. split; [by apply list_elem_of_further | done].
Qed.

(** C3. With pairwise distinct Ids in the scan and a snapshot that parses,
    [checkConflicts] succeeds, whichever Ids the snapshot holds. *)
Theorem checkConflicts_ignores_snapshot
    (yaml_Unmarshal : string → string + list Metadata)
    (newMetadata existingMetadata : list Metadata) (filePath existingData : string) :
  NoDup (Id <$> newMetadata) →
  yaml_Unmarshal existingData = inr existingMetadata →
  checkConflicts yaml_Unmarshal newMetadata filePath (Exists existingData) = None.
Proof.
  intros Hnd Hparse. unfold checkConflicts. rewrite Hparse.
  apply checkLoop_None. split; [done|].
  apply Forall_forall. intros meta _. unfold indexMap. by rewrite lookup_empty.
Qed.

Lemma checkConflicts_ignores_snapshot_witness :
  NoDup (Id <$> published) ∧
  parsePublished "snapshot" = inr published ∧
  checkConflicts parsePublished published "adapters.yaml" (Exists "snapshot") = None.
Proof.
  assert (Hnd : NoDup (Id <$> published)).
  { apply NoDup_cons. split; [by intros ?%list_elem_of_singleton|]. apply NoDup_singleton. }
  split; [exact Hnd|]. split; [reflexivity|].
  apply (checkConflicts_ignores_snapshot parsePublished published published
           "adapters.yaml" "snapshot" Hnd eq_refl).
Defined.

(** With a snapshot that parses, a scan that holds an Id twice is refused
    with the duplicate-Id error. *)
Lemma checkConflicts_duplicate
    (yaml_Unmarshal : string → string + list Metadata)
    (newMetadata existingMetadata : list Metadata) (filePath existingData : string) :
  ¬ NoDup (Id <$> newMetadata) →
  yaml_Unmarshal existingData = inr existingMetadata →
  ∃ meta, meta ∈ newMetadata ∧
    checkConflicts yaml_Unmarshal newMetadata filePath (Exists existingData)
    = Some (ErrDuplicateId (Id meta)).
Proof.
  intros Hdup Hparse. unfold checkConflicts. rewrite Hparse.
  destruct (checkLoop _ newMetadata ∅) as [e|] eqn:Hloop.
  - apply checkLoop_error in Hloop as (meta & Hin & ->). eauto.
  - apply checkLoop_None in Hloop as [Hnd _]. done.
Qed.

(** On a first run nothing is checked: whatever the scan holds, the output
    is written unless marshalling or the write itself fails. *)
Lemma report_first_run
    (yaml_Unmarshal : string → string + list Metadata)
    (yaml_Marshal : list Metadata → string + string)
    (allMetadata : list Metadata) (outputFile : string) :
  report yaml_Unmarshal yaml_Marshal allMetadata outputFile (mkEnv NotExist None)
  = match yaml_Marshal (sortById allMetadata) with
    | inl err => FatalMarshal err
    | inr yamlData => Written outputFile yamlData
    end.
Proof. reflexivity. Qed.

(** C1. Two packages register the Id "dup" and no file is at the output
    path: the check returns before the Ids are looked at, and the run
    writes both records. *)
Theorem main_writes_duplicates_on_first_run
    (yaml_Unmarshal : string → string + list Metadata)
    (yaml_Marshal : list Metadata → string + string) :
  let mA := mkMetadata "dup" "A" "" "" "" "" in
  let mB := mkMetadata "dup" "B" "" "" "" "" in
  scanPackages [pkgA; pkgB] [] [] = Ok ([mA; mB], []) ∧
  ¬ NoDup (Id <$> [mA; mB]) ∧
  checkConflicts yaml_Unmarshal [mA; mB] "adapters.yaml" NotExist = None ∧
  main yaml_Unmarshal yaml_Marshal [pkgA; pkgB] "adapters.yaml" (mkEnv NotExist None)
  = match yaml_Marshal [mA; mB] with
    | inl err => FatalMarshal err
    | inr yamlData => Written "adapters.yaml" yamlData
    end.
Proof.
  repeat split.
  intros Hnd. apply NoDup_cons in Hnd as [Hnotin _].
  apply Hnotin, list_elem_of_here.
Qed.

(** With a snapshot at the output path the same scan is refused. *)
Example report_duplicates_with_snapshot (yaml_Marshal : list Metadata → string + string) :
  report parsePublished yaml_Marshal
    [mkMetadata "dup" "A" "" "" "" ""; mkMetadata "dup" "B" "" "" "" ""]
    "adapters.yaml" (mkEnv (Exists "snapshot") None)
  = FatalConflict (ErrDuplicateId "dup").
Proof. vm_compute. reflexivity. Qed.

End ConflictChecker.

(** ** The Snapshot Differ *)

Section DifferFacts.
Import Differ.
Variable yaml_Marshal : Metadata → string + string.

Lemma toMap_snoc (l : list Metadata) (x : Metadata) :
  toMap (l ++ [x]) = <[Id x := x]> (toMap l).
Proof. unfold toMap. by rewrite foldl_snoc. Qed.

(** The map keeps, for each Id, the last record of the list that has it. *)
Lemma toMap_lookup (l : list Metadata) (k : string) :
  toMap l !! k = last (filter (λ m, Id m = k) l).
Proof.
  induction l as [|x l IH] using rev_ind; [done|].
  rewrite toMap_snoc, filter_app, lookup_insert.
  destruct (decide (Id x = k)) as [Hk|Hk].
  - rewrite filter_cons_True by done. rewrite filter_nil. by rewrite last_snoc.
  - rewrite filter_cons_False by done. rewrite filter_nil. by rewrite app_nil_r.
Qed.

Lemma toMap_key (l : list Metadata) (k : string) (m : Metadata) :
  toMap l !! k = Some m → Id m = k ∧ m ∈ l.
Proof.
  rewrite toMap_lookup. intros Hlast%last_Some_elem_of.
  apply list_elem_of_filter in Hlast. tauto.
Qed.

Lemma foldl_stepNew (oldMap : gmap string Metadata) (order : list (string * Metadata)) :
  ∀ r, foldl (stepNew yaml_Marshal oldMap) r order =
       mkChangeReport (Added r ++ omap (addedOf oldMap) order) (Removed r)
                      (Updated r ++ omap (updatedOf yaml_Marshal oldMap) order).
Proof.
  induction order as [|[id newMeta] order IH]; intros r; simpl.
  { rewrite !app_nil_r. by destruct r. }
  rewrite IH. unfold stepNew, addedOf, updatedOf, serialized. simpl.
  destruct (oldMap !! id) as [oldMeta|]; simpl.
  - destruct (negb _); simpl; [|done]. by rewrite <- app_assoc.
  - by rewrite <- app_assoc.
Qed.

Lemma foldl_stepOld (newMap : gmap string Metadata) (order : list (string * Metadata)) :
  ∀ r, foldl (stepOld newMap) r order =
       mkChangeReport (Added r) (Removed r ++ omap (removedOf newMap) order) (Updated r).
Proof.
  induction order as [|[id oldMeta] order IH]; intros r; simpl.
  { rewrite app_nil_r. by destruct r. }
  rewrite IH. unfold stepOld, removedOf. simpl.
  destruct (newMap !! id); simpl; [done|]. by rewrite <- app_assoc.
Qed.

Lemma compareIn_eq (newOrder oldOrder : list (string * Metadata))
    (oldList newList : list Metadata) :
  compareIn yaml_Marshal newOrder oldOrder oldList newList =
  mkChangeReport (omap (addedOf (toMap oldList)) newOrder)
                 (omap (removedOf (toMap newList)) oldOrder)
                 (omap (updatedOf yaml_Marshal (toMap oldList)) newOrder).
Proof. unfold compareIn. by rewrite foldl_stepNew, foldl_stepOld. Qed.

Lemma NoDup_omap {A B : Type} (f : A → option B) (l : list A) :
  NoDup l →
  (∀ x y z, x ∈ l → y ∈ l → f x = Some z → f y = Some z → x = y) →
  NoDup (omap f l).
Proof.
  induction 1 as [|x l Hx Hnd IH]; intros Hinj; simpl; [constructor|].
  assert (Hrest : NoDup (omap f l)).
  { apply IH. intros a b z Ha Hb. apply Hinj; by apply list_elem_of_further. }
  destruct (f x) as [z|] eqn:Hfx; [|done].
  constructor; [|done].
  intros (y & Hy & Hfy)%list_elem_of_omap.
  assert (x = y) as ->; [|done].
  eapply Hinj; eauto using list_elem_of_here, list_elem_of_further.
Qed.

(** C7. Whatever order the maps are ranged over in, the report holds under
    Added exactly the records of Ids that only the new map has, under
    Removed exactly those of Ids that only the old map has, under Updated
    exactly the pairs of an Id of both maps whose serializations differ,
    each once; an Id of both maps with equal serializations is nowhere in
    it. Each map holds the last record of its list for an Id. *)
Theorem compareMetadata_classifies (oldList newList : list Metadata) (r : ChangeReport) :
  isReport yaml_Marshal oldList newList r →
  let oldMap := toMap oldList in
  let newMap := toMap newList in
  (∀ k, oldMap !! k = last (filter (λ m, Id m = k) oldList)) ∧
  (∀ k, newMap !! k = last (filter (λ m, Id m = k) newList)) ∧
  (∀ m, m ∈ Added r ↔ newMap !! Id m = Some m ∧ oldMap !! Id m = None) ∧
  (∀ m, m ∈ Removed r ↔ oldMap !! Id m = Some m ∧ newMap !! Id m = None) ∧
  (∀ b a, mkUpdateEntry b a ∈ Updated r ↔
          ∃ k, oldMap !! k = Some b ∧ newMap !! k = Some a ∧
               serialized yaml_Marshal b ≠ serialized yaml_Marshal a) ∧
  (∀ k b a, oldMap !! k = Some b → newMap !! k = Some a →
            serialized yaml_Marshal b = serialized yaml_Marshal a →
            (∀ m, m ∈ Added r → Id m ≠ k) ∧
            (∀ m, m ∈ Removed r → Id m ≠ k) ∧
            (∀ e, e ∈ Updated r → Id (Before e) ≠ k ∧ Id (After e) ≠ k)) ∧
  NoDup (Added r) ∧ NoDup (Removed r) ∧ NoDup (Updated r).
Proof.
  intros (newOrder & oldOrder & Hnew & Hold & ->) oldMap newMap.
  rewrite compareIn_eq. fold oldMap newMap. simpl.
  assert (HinNew : ∀ k m, (k, m) ∈ newOrder ↔ newMap !! k = Some m).
  { intros k m. rewrite Hnew. apply elem_of_map_to_list. }
  assert (HinOld : ∀ k m, (k, m) ∈ oldOrder ↔ oldMap !! k = Some m).
  { intros k m. rewrite Hold. apply elem_of_map_to_list. }
  assert (Hadded : ∀ m, m ∈ omap (addedOf oldMap) newOrder ↔
                        newMap !! Id m = Some m ∧ oldMap !! Id m = None).
  { intros m. rewrite list_elem_of_omap. split.
    - intros ([k x] & Hin & Hf). apply HinNew in Hin.
      unfold addedOf in Hf. simpl in Hf.
      destruct (oldMap !! k) eqn:Hk; [done|]. injection Hf as ->.
      apply toMap_key in Hin as Hkey. destruct Hkey as [-> _]. done.
    - intros [Hn Ho]. exists (Id m, m). split; [by apply HinNew|].
      unfold addedOf. simpl. by rewrite Ho. }
  assert (Hremoved : ∀ m, m ∈ omap (removedOf newMap) oldOrder ↔
                          oldMap !! Id m = Some m ∧ newMap !! Id m = None).
  { intros m. rewrite list_elem_of_omap. split.
    - intros ([k x] & Hin & Hf). apply HinOld in Hin.
      unfold removedOf in Hf. simpl in Hf.
      destruct (newMap !! k) eqn:Hk; [done|]. injection Hf as ->.
      apply toMap_key in Hin as Hkey. destruct Hkey as [-> _]. done.
    - intros [Ho Hn]. exists (Id m, m). split; [by apply HinOld|].
      unfold removedOf. simpl. by rewrite Hn. }
  assert (Hupdated : ∀ b a, mkUpdateEntry b a ∈ omap (updatedOf yaml_Marshal oldMap) newOrder ↔
            ∃ k, oldMap !! k = Some b ∧ newMap !! k = Some a ∧
                 serialized yaml_Marshal b ≠ serialized yaml_Marshal a).
  { intros b a. rewrite list_elem_of_omap. split.
    - intros ([k x] & Hin & Hf). apply HinNew in Hin.
      unfold updatedOf in Hf. simpl in Hf.
      destruct (oldMap !! k) as [o|] eqn:Hk; [|done].
      destruct (String.eqb_spec (serialized yaml_Marshal o) (serialized yaml_Marshal x)) as [|Hne]; [done|].
      simpl in Hf. injection Hf as -> ->. by exists k.
    - intros (k & Ho & Hn & Hne). exists (k, a). split; [by apply HinNew|].
      unfold updatedOf. simpl. rewrite Ho.
      by destruct (String.eqb_spec (serialized yaml_Marshal b) (serialized yaml_Marshal a)). }
  split; [apply toMap_lookup|]. split; [apply toMap_lookup|].
  split; [exact Hadded|]. split; [exact Hremoved|]. split; [exact Hupdated|].
  split.
  { intros k b a Ho Hn Heq. split; [|split].
    - intros m [_ Hnone]%Hadded Hk. rewrite Hk, Ho in Hnone. done.
    - intros m [_ Hnone]%Hremoved Hk. rewrite Hk, Hn in Hnone. done.
    - intros [b' a'] (k' & Ho' & Hn' & Hne)%Hupdated. simpl.
      destruct (toMap_key _ _ _ Ho') as [Hb _].
      destruct (toMap_key _ _ _ Hn') as [Ha _].
      rewrite Hb, Ha. assert (k' ≠ k); [|done].
      intros ->. fold oldMap in Ho'. fold newMap in Hn'.
      rewrite Ho in Ho'. rewrite Hn in Hn'. by simplify_eq. }
  assert (HndNew : NoDup newOrder) by (rewrite Hnew; apply NoDup_map_to_list).
  assert (HndOld : NoDup oldOrder) by (rewrite Hold; apply NoDup_map_to_list).
  repeat split.
  - apply NoDup_omap; [done|]. intros [k x] [k' x'] z Hx Hy Hfx Hfy.
    apply HinNew, toMap_key in Hx as [<- _]. apply HinNew, toMap_key in Hy as [<- _].
    unfold addedOf in *. simpl in *.
    destruct (oldMap !! Id x), (oldMap !! Id x'); by simplify_eq.
  - apply NoDup_omap; [done|]. intros [k x] [k' x'] z Hx Hy Hfx Hfy.
    apply HinOld, toMap_key in Hx as [<- _]. apply HinOld, toMap_key in Hy as [<- _].
    unfold removedOf in *. simpl in *.
    destruct (newMap !! Id x), (newMap !! Id x'); by simplify_eq.
  - apply NoDup_omap; [done|]. intros [k x] [k' x'] z Hx Hy Hfx Hfy.
    apply HinNew, toMap_key in Hx as [<- _]. apply HinNew, toMap_key in Hy as [<- _].
    unfold updatedOf in *. simpl in *.
    destruct (oldMap !! Id x), (oldMap !! Id x'); try done.
    destruct (negb _), (negb _); by simplify_eq.
Qed.

(** A run of [compareMetadata] is one of the runs [isReport] describes. *)
Lemma compareMetadata_isReport (oldList newList : list Metadata) :
  isReport yaml_Marshal oldList newList (compareMetadata yaml_Marshal oldList newList).
Proof. exists (map_to_list (toMap newList)), (map_to_list (toMap oldList)). done. Qed.

End DifferFacts.

Section DifferExamples.
Import Differ Fixtures.

Lemma compareMetadata_classifies_witness :
  isReport marshalLines [recA1] [recA2; recB]
           (compareMetadata marshalLines [recA1] [recA2; recB]) ∧
  ∀ m, m ∈ Added (compareMetadata marshalLines [recA1] [recA2; recB]) ↔
       toMap [recA2; recB] !! Id m = Some m ∧ toMap [recA1] !! Id m = None.
Proof.
  split; [apply compareMetadata_isReport|].
  apply (compareMetadata_classifies marshalLines [recA1] [recA2; recB]
           (compareMetadata marshalLines [recA1] [recA2; recB])
           (compareMetadata_isReport marshalLines [recA1] [recA2; recB])).
Defined.

(** The scenarios of the specification, run. *)
Example compareMetadata_scenario_update :
  compareMetadata marshalLines [recA1] [recA2; recB]
  = mkChangeReport [recB] [] [mkUpdateEntry recA1 recA2].
Proof. vm_compute. reflexivity. Qed.

Example compareMetadata_scenario_removed :
  compareMetadata marshalLines [recB] [] = mkChangeReport [] [recB] [].
Proof. vm_compute. reflexivity. Qed.

Example compareMetadata_scenario_missing_old :
  compareMetadata marshalLines [] [recB] = mkChangeReport [recB] [] [].
Proof. vm_compute. reflexivity. Qed.

End DifferExamples.

Section PickFacts.
Import Metagen.

Lemma registerVisitor_find (info : Info) (n : Node) (s : option Node) :
  registerVisitor info n s = findVisitor (registerPick info) Some n s.
Proof.
  unfold registerVisitor, findVisitor, registerPick, inRegistryPackage.
  destruct n as [| | | |[]| | | | | | | | | | | |]; try reflexivity.
  destruct (String.eqb (Name sel) "Register"); simpl;
    [|by destruct args].
  destruct (ObjectOf info sel) as [obj|]; [|by destruct args].
  destruct (Pkg obj) as [p|]; [|by destruct args].
  destruct (Strings.HasSuffix (Path p) "meloshub/adapter"); by destruct args.
Qed.

Lemma registerPick_spec (info : Info) (m a : Node) :
  registerPick info m = Some a ↔ isRegistration info m a.
Proof.
  split.
  - unfold registerPick. destruct m as [| | | |[]| | | | | | | | | | | |]; try done.
    destruct args as [|a' rest]; [done|].
    destruct (String.eqb_spec (Name sel) "Register") as [Hname|]; [|done].
    destruct (inRegistryPackage info sel) eqn:Hpkg; [|done].
    intros [= ->]. by exists x, sel, rest.
  - intros (q & sel & rest & -> & Hname & Hpkg). simpl.
    by rewrite Hname, Hpkg.
Qed.

Lemma assignVisitor_find (info : Info) (obj : Object) (n : Node) (s : string) :
  assignVisitor info obj n s = findVisitor (assignPick info obj) id n s.
Proof.
  unfold assignVisitor, findVisitor, assignPick.
  repeat case_match; simplify_eq; reflexivity.
Qed.

Lemma assignPick_spec (info : Info) (obj : Object) (m : Node) (callee : string) :
  assignPick info obj m = Some callee ↔ assignsCall info obj m callee.
Proof.
  split.
  - unfold assignPick, assignsCall. intros Hpick.
    repeat case_match; simplify_eq. eauto 10.
  - intros (lhsIdent & tok & funIdent & args & o & -> & Ho & Hsame & <-). simpl.
    by rewrite Ho, Hsame.
Qed.

Lemma declVisitor_find (name : string) (n : Node) (s : option FuncDeclT) :
  declVisitor name n s = findVisitor (declPick name) Some n s.
Proof.
  unfold declVisitor, findVisitor, declPick.
  destruct (asFuncDecl n) as [d|]; [|done].
  by destruct (String.eqb (Name (FuncName d)) name).
Qed.

Lemma declPick_spec (name : string) (m : Node) (d : FuncDeclT) :
  declPick name m = Some d ↔
  m = FuncDecl (Recv d) (FuncName d) (Body d) ∧ Name (FuncName d) = name.
Proof.
  unfold declPick. split.
  - destruct m; try done. simpl.
    destruct (String.eqb_spec (Name name0) name) as [Hname|]; [|done].
    by intros [= <-].
  - intros [-> <-]. simpl. rewrite String.eqb_refl. by destruct d.
Qed.

End PickFacts.

(** ** Which literals the Extractor takes *)

Section Candidates.
Import Metagen Fixtures.




End Candidates.

(** ** The Registration Site Locator *)

Section Locator.
Import Metagen Fixtures.

(** On a body that is there the walk of [findRegisterCallArgument] does
    not panic. It returns an argument exactly when the body holds a
    registration, and the argument it returns is the first argument of
    one. *)
Lemma findRegisterCallArgument_spec (info : Info) (body : Node) :
  ∃ r, findRegisterCallArgument info (Some body) = Ok r ∧
       (is_Some r ↔ ∃ m a, m ∈ subnodes body ∧ isRegistration info m a) ∧
       (∀ a, r = Some a → ∃ m, m ∈ subnodes body ∧ isRegistration info m a).
Proof.
  unfold findRegisterCallArgument, InspectBlock.
  rewrite (Inspect_ext _ _ (registerVisitor_find info)).
  destruct (Inspect_find (registerPick info) Some body None)
    as (r & -> & [[-> Hnone]|(m & a & Hm & Hpick & ->)]).
  - exists None. split; [done|]. split; [|done]. split; [by intros []|].
    intros (m & a & Hm & Hreg). apply registerPick_spec in Hreg.
    rewrite Forall_forall in Hnone. rewrite (Hnone m Hm) in Hreg. done.
  - apply registerPick_spec in Hpick.
    exists (Some a). split; [done|]. split.
    + split; [eauto | by eexists].
    + intros a' [= <-]. eauto.
Qed.

(** C6, as the code has it. A call is taken exactly when it is written
    [q.Register(a, ...)] and [Register] resolves into a package whose path
    ends in [meloshub/adapter]; the qualifier [q] is not looked at, and a
    call of the bare name is never taken. The Locator returns an argument
    exactly when the initializer holds such a call. *)
Theorem findRegisterCallArgument_honors (info : Info) :
  (∀ q pos a rest s,
     registerVisitor info (CallExpr (SelectorExpr q (mkIdent pos "Register")) (a :: rest)) s
     = if inRegistryPackage info (mkIdent pos "Register")
       then Ok (Some a, false) else Ok (s, true)) ∧
  (∀ ident args s,
     registerVisitor info (CallExpr (NIdent ident) args) s = Ok (s, true)) ∧
  (∀ body, ∃ r,
     findRegisterCallArgument info (Some body) = Ok r ∧
     (is_Some r ↔ ∃ m a, m ∈ subnodes body ∧ isRegistration info m a) ∧
     (∀ a, r = Some a → ∃ m, m ∈ subnodes body ∧ isRegistration info m a)).
Proof.
  split; [|split].
  - intros q pos a rest s. rewrite registerVisitor_find.
    unfold findVisitor, registerPick. simpl.
    by destruct (inRegistryPackage info _).
  - done.
  - apply findRegisterCallArgument_spec.
Qed.

Lemma findRegisterCallArgument_honors_witness :
  ∃ r, findRegisterCallArgument info0 (Some dotImportBody) = Ok r ∧
       (is_Some r ↔ ∃ m a, m ∈ subnodes dotImportBody ∧ isRegistration info0 m a) ∧
       (∀ a, r = Some a → ∃ m, m ∈ subnodes dotImportBody ∧ isRegistration info0 m a).
Proof. apply (findRegisterCallArgument_honors info0). Defined.

(** C6, as stated, fails: the callee of this call resolves to the
    registry's [Register], and the call is passed over. *)
Lemma dot_import_call_is_ignored :
  ObjectOf info0 (mkIdent 11 "Register") = Some registerFn ∧
  Pkg registerFn = Some adapterPkg ∧
  Strings.HasSuffix (Path adapterPkg) "meloshub/adapter" = true ∧
  findRegisterCallArgument info0 (Some dotImportBody) = Ok None.
Proof. repeat split. Qed.

Example findRegisterCallArgument_renamed_import :
  findRegisterCallArgument info0
    (Some (BlockStmt
       [ExprStmt (CallExpr (qualified 11 "hub" "Register") [call0 20 "NewFoo"])]))
  = Ok (Some (call0 20 "NewFoo")) ∧
  findRegisterCallArgument infoMetrics
    (Some (BlockStmt
       [ExprStmt (CallExpr (qualified 11 "adapter" "Register") [call0 20 "NewFoo"])]))
  = Ok None.
Proof. split; reflexivity. Qed.

End Locator.

(** ** The Constructor Tracer *)

Section Tracer.
Import Metagen Fixtures.

Lemma lookupDecl_found (file : Node) (name : string) :
  name ≠ "" →
  (∃ d, declares file d ∧ Name (FuncName d) = name) →
  ∃ d, declares file d ∧ Name (FuncName d) = name ∧ lookupDecl file name = Ok (Some d).
Proof.
  intros Hname (d & Hd & Hdn). unfold lookupDecl.
  destruct (String.eqb_spec name "") as [|_]; [done|].
  rewrite (Inspect_ext _ _ (declVisitor_find name)).
  destruct (Inspect_find_some (declPick name) Some file None
              (FuncDecl (Recv d) (FuncName d) (Body d)) Hd)
    as (m & d' & Hm & Hpick & ->).
  { exists d. by apply declPick_spec. }
  apply declPick_spec in Hpick as [-> Hn]. by exists d'.
Qed.

Lemma lookupDecl_missing (file : Node) (name : string) :
  (∀ d, declares file d → Name (FuncName d) ≠ name) → lookupDecl file name = Ok None.
Proof.
  intros Hnone. unfold lookupDecl. destruct (String.eqb name ""); [done|].
  rewrite (Inspect_ext _ _ (declVisitor_find name)).
  apply Inspect_find_none, Forall_forall. intros m Hm.
  destruct (declPick name m) as [d|] eqn:Hpick; [|done].
  apply declPick_spec in Hpick as [-> Hn]. by destruct (Hnone d).
Qed.

Lemma findConstructorFunc_direct (info : Info) (file : Node) (ident : Ident)
    (args : list Node) :
  findConstructorFunc info file (CallExpr (NIdent ident) args)
  = lookupDecl file (Name ident).
Proof. reflexivity. Qed.

Lemma findConstructorFunc_other (info : Info) (file : Node) (arg : Node) :
  otherShape arg → findConstructorFunc info file arg = Ok None.
Proof.
  intros [Hcall Hident]. unfold findConstructorFunc.
  destruct arg as [ident| | | |fn args| | | | | | | | | | | |]; try reflexivity.
  - by destruct (Hident ident).
  - destruct fn as [ident| | | | | | | | | | | | | | | |]; try reflexivity.
    by destruct (Hcall ident args).
Qed.

End Tracer.

Section TracerExamples.
Import Metagen Fixtures.

(** The two traced shapes end at the record of the constructor. *)
Example findMetadataInFile_direct :
  findMetadataInFile info0 directFile
  = Ok (Some (mkMetadata "foo" "Foo" "" "" "" ""), []).
Proof. reflexivity. Qed.

Example findMetadataInFile_indirect :
  findMetadataInFile infoVar indirectFile
  = Ok (Some (mkMetadata "foo" "Foo" "" "" "" ""), []).
Proof. reflexivity. Qed.

End TracerExamples.

(** ** More on [ast.Inspect] *)

Section InspectMore.
Context {S : Type} (f : Node → S → Res (S * bool)).

Lemma subnodes_child (n c m : Node) :
  c ∈ children n → m ∈ subnodes c → m ∈ subnodes n.
Proof.
  intros Hc Hm. rewrite (subnodes_children n). apply list_elem_of_further.
  apply list_elem_of_In, in_flat_map. exists c.
  split; by apply list_elem_of_In.
Qed.

(** A property of the state that every call of the closure on a node of the
    tree keeps is kept by the walk. *)
Lemma Inspect_invariant (P : S → Prop) (n : Node) :
  (∀ m s s' d, m ∈ subnodes n → P s → f m s = Ok (s', d) → P s') →
  ∀ s s', P s → Inspect f n s = Ok s' → P s'.
Proof.
  induction n as [n IH] using Node_children_ind. intros Hstep s s' HP.
  rewrite Inspect_unfold.
  destruct (f n s) as [[s0 d]|msg] eqn:Hf; [|done]. rewrite bind_Ok.
  assert (HP0 : P s0) by (eapply Hstep; eauto using subnodes_self).
  destruct d; [|by intros [= <-]].
  assert (Hsub : ∀ c, c ∈ children n → ∀ m, m ∈ subnodes c → m ∈ subnodes n)
    by (intros c Hc m; by apply subnodes_child).
  clear Hf HP. revert s0 HP0 Hsub.
  induction IH as [|c cs Hc _ IHcs]; intros s0 HP0 Hsub; cbn [InspectList].
  - by intros [= <-].
  - destruct (Inspect f c s0) as [s1|msg] eqn:Hi; [|done]. rewrite bind_Ok.
    apply IHcs.
    + eapply Hc; [|exact HP0|exact Hi].
      intros m t t' d Hm. apply Hstep. eapply Hsub; [apply list_elem_of_here|done].
    + intros c' Hc'. apply Hsub. by apply list_elem_of_further.
Qed.

(** A closure that never changes the state, and never panics, on the nodes
    of the tree leaves the state as it was. *)
Lemma Inspect_unchanged (n : Node) :
  (∀ m s, m ∈ subnodes n → ∃ d, f m s = Ok (s, d)) →
  ∀ s, Inspect f n s = Ok s.
Proof.
  induction n as [n IH] using Node_children_ind. intros Hsame s.
  rewrite Inspect_unfold.
  destruct (Hsame n s (subnodes_self n)) as [d ->]. rewrite bind_Ok.
  destruct d; [|done].
  assert (Hsub : ∀ c, c ∈ children n → ∀ m, m ∈ subnodes c → m ∈ subnodes n)
    by (intros c Hc m; by apply subnodes_child).
  revert Hsub. induction IH as [|c cs Hc _ IHcs]; intros Hsub; cbn [InspectList]; [done|].
  rewrite Hc.
  - rewrite bind_Ok. apply IHcs. intros c' Hc'. apply Hsub. by apply list_elem_of_further.
  - intros m t Hm. apply Hsame. eapply Hsub; [apply list_elem_of_here|done].
Qed.
End InspectMore.

Section HitsFacts.
Context {A S : Type} (pick : Node → option A) (inj : A → S).

Lemma flat_map_hitIdent (l : list Ident) :
  flat_map (hits pick) (map NIdent l) = flat_map (hitIdent pick) l.
Proof.
  induction l as [|x l IH]; [done|]. cbn [map flat_map]. by rewrite IH.
Qed.

Lemma hits_children (n : Node) :
  hits pick n =
  match pick n with
  | Some a => [a]
  | None => flat_map (hits pick) (children n)
  end.
Proof.
  assert (Hid : ∀ x, hits pick (NIdent x) = hitIdent pick x).
  { intros x. unfold hitIdent. simpl. by destruct (pick (NIdent x)). }
  destruct n as [| | ? [t|] ? | | | | | | | | | | | ? ? [b|] | | |]; simpl;
    destruct (pick _); try reflexivity;
    rewrite ?flat_map_app, ?flat_map_hitIdent, ?app_nil_r; try reflexivity.
  all: cbn [hitIdent]; unfold hitIdent; simpl;
    repeat match goal with |- context [pick (NIdent ?x)] =>
             destruct (pick (NIdent x)) end; reflexivity.
Qed.

(** The walk ends with the last result of the test along it, or with the
    state it started from when the test never succeeds. *)
Lemma Inspect_find_last (n : Node) :
  ∀ s, Inspect (findVisitor pick inj) n s
       = Ok (from_option inj s (last (hits pick n))).
Proof.
  induction n as [n IH] using Node_children_ind. intros s.
  rewrite Inspect_unfold, hits_children.
  destruct (pick n) as [a|] eqn:Hp.
  { replace (findVisitor pick inj n s) with (@Ok (S * bool) (inj a, false))
      by (unfold findVisitor; by rewrite Hp).
    done. }
  replace (findVisitor pick inj n s) with (@Ok (S * bool) (s, true))
    by (unfold findVisitor; by rewrite Hp).
  rewrite bind_Ok.
  revert s. induction IH as [|c cs Hc _ IHcs]; intros s; cbn [InspectList flat_map]; [done|].
  rewrite Hc, bind_Ok, IHcs, last_app.
  by destruct (last (flat_map (hits pick) cs)).
Qed.

Lemma hits_subnodes (n : Node) (a : A) :
  a ∈ hits pick n → ∃ m, m ∈ subnodes n ∧ pick m = Some a.
Proof.
  induction n as [n IH] using Node_children_ind.
  rewrite hits_children. destruct (pick n) as [a'|] eqn:Hp.
  - intros ->%list_elem_of_singleton. exists n. split; [apply subnodes_self | done].
  - intros (c & Hc & Ha)%list_elem_of_In%in_flat_map.
    apply list_elem_of_In in Hc. apply list_elem_of_In in Ha.
    rewrite Forall_forall in IH. destruct (IH c Hc Ha) as (m & Hm & Hpm).
    exists m. split; [by eapply subnodes_child | done].
Qed.
End HitsFacts.

(** ** The Extractor, further *)

Section ExtractorMore.
Import Metagen Fixtures Samples.

Lemma parseCompositeLit_nonempty (info : Info) (expr : Node) (m : Metadata) :
  parseCompositeLit info expr = Ok (Some m) → Id m ≠ "".
Proof.
  unfold parseCompositeLit. destruct expr; try done.
  destruct (parseElts info elts zeroMetadata) as [meta|msg]; [|done]. simpl.
  destruct (String.eqb_spec (Id meta) ""); [done|]. by intros [= <-].
Qed.

Lemma findMetadataInFuncBody_inv (info : Info) (body : Node) (m : Metadata) :
  findMetadataInFuncBody info (Some body) = Ok (Some m) →
  Id m ≠ "" ∧
  ∃ lit, lit ∈ subnodes body ∧ isCandidate info lit = true ∧
         parseCompositeLit info lit = Ok (Some m).
Proof.
  intros Hfound.
  pose (P := λ s : option Metadata, ∀ m, s = Some m →
               ∃ lit, lit ∈ subnodes body ∧ isCandidate info lit = true ∧
                      parseCompositeLit info lit = Ok (Some m)).
  assert (HP : P (Some m)).
  { eapply (Inspect_invariant (metadataVisitor info) P body); [| |exact Hfound].
    - intros lit s s' d Hlit Hs.
      destruct (isCandidate info lit) eqn:Hc.
      + rewrite metadataVisitor_candidate by done.
        destruct (parseCompositeLit info lit) as [[m0|]|msg] eqn:Hp; simpl; try done.
        * intros [= <- _] m1 [= <-]. by exists lit.
        * by intros [= <- _].
      + rewrite metadataVisitor_not_candidate by done. by intros [= <- _].
    - by intros m0. }
  destruct (HP m eq_refl) as (lit & Hlit & Hc & Hp).
  split; [by eapply parseCompositeLit_nonempty | by exists lit].
Qed.

(** X1. A record that [findMetadataInFuncBody] returns has a non-empty Id
    and is what [parseCompositeLit] gives for a literal of the body whose
    resolved type passes the test. *)
Theorem findMetadataInFuncBody_sound (info : Info) (body : Node) (m : Metadata) :
  findMetadataInFuncBody info (Some body) = Ok (Some m) →
  Id m ≠ "" ∧
  ∃ lit, lit ∈ subnodes body ∧ isCandidate info lit = true ∧
         parseCompositeLit info lit = Ok (Some m).
Proof. apply findMetadataInFuncBody_inv. Qed.

Lemma findMetadataInFuncBody_sound_witness :
  findMetadataInFuncBody info0 (Some twoLiterals)
    = Ok (Some (mkMetadata "second" "Second" "" "" "" "")) ∧
  Id (mkMetadata "second" "Second" "" "" "" "") ≠ "" ∧
  ∃ lit, lit ∈ subnodes twoLiterals ∧ isCandidate info0 lit = true ∧
         parseCompositeLit info0 lit = Ok (Some (mkMetadata "second" "Second" "" "" "" "")).
Proof.
  split; [reflexivity|].
  apply (findMetadataInFuncBody_sound info0 twoLiterals
           (mkMetadata "second" "Second" "" "" "" "") eq_refl).
Defined.

Lemma plainChar_not_quote (c : ascii) :
  plainChar c = true → Strings.inCutset c dquote = false.
Proof.
  intros Hc. cbn [Strings.inCutset dquote]. rewrite orb_false_r.
  destruct (Ascii.eqb_spec c "034"%char) as [->|]; [discriminate Hc | done].
Qed.

Lemma plainText_quoteFree (s : string) : plainText s = true → quoteFree s.
Proof.
  intros Hs. split.
  - destruct s as [|c s]; [done|]. apply andb_true_iff in Hs as [Hc _].
    cbn [Strings.TrimLeft]. by rewrite plainChar_not_quote.
  - induction s as [|c s IH]; [done|]. apply andb_true_iff in Hs as [Hc Hs].
    cbn [Strings.TrimRight]. rewrite (IH Hs), (plainChar_not_quote c Hc).
    by destruct s.
Qed.

Lemma getExprValue_str (info : Info) (s : string) :
  plainText s = true → getExprValue info (str s) = Ok s.
Proof. intros [Hl Hr]%plainText_quoteFree. by apply getExprValue_interpreted_literal. Qed.

Lemma setField_known (keyName value : string) (meta : Metadata) :
  setField keyName value meta = setKnown keyName value meta (setField keyName value meta).
Proof. unfold setKnown. by repeat case_match. Qed.

(** X2. For a record whose fields are plain text (printable ASCII without
    double quote and backslash), the literal that spells out the six fields
    as interpreted string literals is read back as that record, and as no
    record when the Id is empty. *)
Theorem parseCompositeLit_literalOf (info : Info) (pos : nat) (m : Metadata) :
  plainRecord m →
  parseCompositeLit info (literalOf pos m)
  = Ok (if String.eqb (Id m) "" then None else Some m).
Proof.
  intros (Hid & Htitle & Htype & Hversion & Hauthor & Hdesc).
  unfold parseCompositeLit, literalOf. cbn [parseElts field Sprintf_s Name].
  rewrite (getExprValue_str info (Id m)), bind_Ok by done.
  rewrite (getExprValue_str info (Title m)), bind_Ok by done.
  rewrite (getExprValue_str info (Type_ m)), bind_Ok by done.
  rewrite (getExprValue_str info (Version m)), bind_Ok by done.
  rewrite (getExprValue_str info (Author m)), bind_Ok by done.
  rewrite (getExprValue_str info (Description m)), !bind_Ok by done.
  destruct m as [i t ty v a d]. cbn [Id Title Type_ Version Author Description].
  rewrite (setField_known "Id" i zeroMetadata). cbn [setKnown].
  rewrite (setField_known "Title" t). cbn [setKnown Id Title Type_ Version Author Description].
  rewrite (setField_known "Type" ty). cbn [setKnown Id Title Type_ Version Author Description].
  rewrite (setField_known "Version" v). cbn [setKnown Id Title Type_ Version Author Description].
  rewrite (setField_known "Author" a). cbn [setKnown Id Title Type_ Version Author Description].
  rewrite (setField_known "Description" d).
  cbn [setKnown Id Title Type_ Version Author Description zeroMetadata].
  by destruct (String.eqb i "").
Qed.

Lemma parseCompositeLit_literalOf_witness :
  plainRecord recFoo ∧
  parseCompositeLit info0 (literalOf 40 recFoo) = Ok (Some recFoo).
Proof.
  assert (Hplain : plainRecord recFoo) by (repeat split).
  split; [exact Hplain|].
  apply (parseCompositeLit_literalOf info0 40 recFoo Hplain).
Defined.

Lemma knownField_setField (keyName value : string) (meta : Metadata) :
  knownField keyName = false → setField keyName value meta = meta.
Proof.
  unfold knownField, setField. intros Hk.
  repeat (apply orb_false_iff in Hk as [Hk ?]).
  by repeat match goal with H : String.eqb _ _ = false |- _ => rewrite H; clear H end.
Qed.

(** X3. An element whose key is not one of the six field names, or is not
    an identifier at all, changes no field; its value is resolved all the
    same, so a panic of the resolver there still ends the parse. *)
Theorem parseElts_unknown_key (info : Info) (key val : Node) (rest : list Node)
    (meta : Metadata) :
  ((∀ ident, key ≠ NIdent ident) → knownField (Sprintf_s key) = false) ∧
  (knownField (Sprintf_s key) = false →
   parseElts info (KeyValueExpr key val :: rest) meta
   = (_ ← getExprValue info val; parseElts info rest meta)).
Proof.
  split.
  - intros Hkey. destruct key; try reflexivity. by destruct (Hkey id).
  - intros Hk. cbn [parseElts].
    destruct (getExprValue info val) as [value|msg]; [|done].
    cbn [mbind Res_bind]. by rewrite knownField_setField.
Qed.

Lemma parseElts_unknown_key_witness :
  knownField (Sprintf_s (NIdent (mkIdent 44 "Retries"))) = false ∧
  parseElts infoConst [KeyValueExpr (NIdent (mkIdent 44 "Retries")) (NIdent maxRetriesRef)]
            zeroMetadata
  = (_ ← getExprValue infoConst (NIdent maxRetriesRef); parseElts infoConst [] zeroMetadata).
Proof.
  split; [reflexivity|].
  apply (proj2 (parseElts_unknown_key infoConst (NIdent (mkIdent 44 "Retries"))
                  (NIdent maxRetriesRef) [] zeroMetadata) eq_refl).
Defined.




End ExtractorMore.

(** ** The Locator and the Tracer, further *)

Section TracingMore.
Import Metagen Fixtures Samples.

(** X5. On the body of a declaration that has one,
    [findRegisterCallArgument] returns the first argument of the last
    registration call of the walk that is not inside the arguments of
    another one, and nil when the body holds none: a later registration
    replaces an earlier one. On the nil body of a declaration without body
    it panics. *)
Theorem findRegisterCallArgument_last (info : Info) (body : option Node) :
  findRegisterCallArgument info body
  = match body with
    | Some block => Ok (last (hits (registerPick info) block))
    | None => Panic nilDereference
    end.
Proof.
  unfold findRegisterCallArgument, InspectBlock. destruct body as [block|]; [|done].
  rewrite (Inspect_ext _ _ (registerVisitor_find info)), Inspect_find_last.
  by destruct (last _).
Qed.

Example findRegisterCallArgument_two_calls :
  findRegisterCallArgument info0 (Some twoRegistrations) = Ok (Some (call0 24 "NewB")).
Proof. reflexivity. Qed.

Lemma lookupDecl_last (file : Node) (name : string) :
  name ≠ "" → lookupDecl file name = Ok (last (hits (declPick name) file)).
Proof.
  intros Hname. unfold lookupDecl.
  destruct (String.eqb_spec name "") as [|_]; [done|].
  rewrite (Inspect_ext _ _ (declVisitor_find name)), Inspect_find_last.
  by destruct (last _).
Qed.

(** X6. For a call of a named function as argument, the Tracer returns the
    last declaration of the file that bears the callee's name, function or
    method, and nil when there is none. *)
Theorem findConstructorFunc_last_declaration (info : Info) (file : Node)
    (ident : Ident) (args : list Node) :
  Name ident ≠ "" →
  findConstructorFunc info file (CallExpr (NIdent ident) args)
  = Ok (last (hits (declPick (Name ident)) file)).
Proof. intros Hname. rewrite findConstructorFunc_direct. by apply lookupDecl_last. Qed.

Lemma findConstructorFunc_last_declaration_witness :
  Name (mkIdent 20 "NewFoo") ≠ "" ∧
  findConstructorFunc info0 shadowedFile (call0 20 "NewFoo") = Ok (Some methodNewFoo).
Proof.
  assert (Hname : Name (mkIdent 20 "NewFoo") ≠ "") by discriminate.
  split; [exact Hname|].
  apply (findConstructorFunc_last_declaration info0 shadowedFile (mkIdent 20 "NewFoo") [] Hname).
Defined.

Lemma findConstructorFunc_ident (info : Info) (file : Node) (v : Ident) :
  findConstructorFunc info file (NIdent v)
  = match ObjectOf info v with
    | None => Ok None
    | Some obj =>
        match last (hits (assignPick info obj) file) with
        | None => Ok None
        | Some callee => lookupDecl file callee
        end
    end.
Proof.
  unfold findConstructorFunc. destruct (ObjectOf info v) as [obj|]; [|done].
  rewrite (Inspect_ext _ _ (assignVisitor_find info obj)), Inspect_find_last.
  rewrite bind_Ok. destruct (last _) as [callee|]; reflexivity.
Qed.

(** X7. For a variable as argument, the Tracer takes the callee of the last
    assignment of the file that assigns a call, alone, to that variable,
    and looks its name up among the declarations as for a direct call; a
    variable that does not resolve, or is never so assigned, or is assigned
    a call of a function the file does not declare, is untraceable. *)
Theorem findConstructorFunc_last_assignment (info : Info) (file : Node) (v : Ident) :
  findConstructorFunc info file (NIdent v)
  = match ObjectOf info v with
    | None => Ok None
    | Some obj =>
        match last (hits (assignPick info obj) file) with
        | None => Ok None
        | Some callee =>
            if String.eqb callee "" then Ok None
            else Ok (last (hits (declPick callee) file))
        end
    end.
Proof.
  rewrite findConstructorFunc_ident.
  destruct (ObjectOf info v) as [obj|]; [|done].
  destruct (last _) as [callee|]; [|done].
  destruct (String.eqb_spec callee "") as [->|Hne]; [done|].
  by apply lookupDecl_last.
Qed.

Lemma lookupDecl_inv (file : Node) (name : string) (d : FuncDeclT) :
  lookupDecl file name = Ok (Some d) →
  declares file d ∧ Name (FuncName d) = name ∧ name ≠ "".
Proof.
  unfold lookupDecl.
  destruct (String.eqb_spec name "") as [|Hne]; [done|].
  rewrite (Inspect_ext _ _ (declVisitor_find name)), Inspect_find_last.
  destruct (last _) as [d'|] eqn:Hlast; [|done]. intros [= ->].
  apply last_Some_elem_of, hits_subnodes in Hlast as (m & Hm & Hpick).
  apply declPick_spec in Hpick as [-> Hn]. done.
Qed.

Lemma findConstructorFunc_inv (info : Info) (file : Node) (arg : Node) (d : FuncDeclT) :
  findConstructorFunc info file arg = Ok (Some d) →
  declares file d ∧ Name (FuncName d) ≠ "" ∧
  ((∃ ident args, arg = CallExpr (NIdent ident) args ∧ Name ident = Name (FuncName d)) ∨
   (∃ ident obj m, arg = NIdent ident ∧ ObjectOf info ident = Some obj ∧
                   m ∈ subnodes file ∧ assignsCall info obj m (Name (FuncName d)))).
Proof.
  destruct arg as [ident| | | |fn args| | | | | | | | | | | |]; try done.
  - rewrite findConstructorFunc_ident.
    destruct (ObjectOf info ident) as [obj|] eqn:Hobj; [|done].
    destruct (last _) as [callee|] eqn:Hlast; [|done].
    intros (Hd & Hn & Hne)%lookupDecl_inv. rewrite Hn. repeat split; try done.
    right. apply last_Some_elem_of, hits_subnodes in Hlast as (m & Hm & Hpick).
    apply assignPick_spec in Hpick. by exists ident, obj, m.
  - destruct fn as [ident| | | | | | | | | | | | | | | |]; try done.
    rewrite findConstructorFunc_direct.
    intros (Hd & Hn & Hne)%lookupDecl_inv. rewrite Hn. repeat split; try done.
    left. by exists ident, args.
Qed.

(** X8. Whatever declaration the Tracer returns is a declaration of the
    file with a non-empty name, and that name is the callee of the argument
    or of an assignment of a call to the argument's variable. *)
Theorem findConstructorFunc_sound (info : Info) (file : Node) (arg : Node) (d : FuncDeclT) :
  findConstructorFunc info file arg = Ok (Some d) →
  declares file d ∧ Name (FuncName d) ≠ "" ∧
  ((∃ ident args, arg = CallExpr (NIdent ident) args ∧ Name ident = Name (FuncName d)) ∨
   (∃ ident obj m, arg = NIdent ident ∧ ObjectOf info ident = Some obj ∧
                   m ∈ subnodes file ∧ assignsCall info obj m (Name (FuncName d)))).
Proof. apply findConstructorFunc_inv. Qed.

Lemma findConstructorFunc_sound_witness :
  findConstructorFunc infoVar indirectFile (NIdent (mkIdent 19 "c")) = Ok (Some newFooDecl) ∧
  declares indirectFile newFooDecl ∧ Name (FuncName newFooDecl) ≠ "".
Proof.
  assert (Hrun : findConstructorFunc infoVar indirectFile (NIdent (mkIdent 19 "c"))
                 = Ok (Some newFooDecl)) by reflexivity.
  split; [exact Hrun|].
  destruct (findConstructorFunc_sound infoVar indirectFile (NIdent (mkIdent 19 "c"))
              newFooDecl Hrun) as (Hd & Hn & _).
  by split.
Defined.

End TracingMore.

(** ** The shapes the Tracer handles *)

Section TracerShapes.
Import Metagen Fixtures Samples.

Lemma initVisitor_pass (info : Info) (file m : Node) (st : option Metadata * list Diagnostic) :
  (∀ d, asFuncDecl m = Some d → Name (FuncName d) ≠ "init") →
  initVisitor info file m st = Ok (st, true).
Proof.
  intros Hm. unfold initVisitor. destruct (asFuncDecl m) as [d|]; [|done].
  by destruct (String.eqb_spec (Name (FuncName d)) "init") as [Hname%(Hm d eq_refl)|].
Qed.

Lemma InspectList_pass {S : Type} (f : Node → S → Res (S * bool)) (l : list Node) :
  Forall (λ m, ∀ s, f m s = Ok (s, true)) (flat_map subnodes l) →
  ∀ s, InspectList f l s = Ok s.
Proof.
  induction l as [|x l IH]; intros Hall s; cbn [InspectList]; [done|].
  cbn [flat_map] in Hall. apply Forall_app in Hall as [Hx Hl].
  rewrite (Inspect_pass f x s Hx), bind_Ok. by apply IH.
Qed.

Lemma InspectList_noInitializer (info : Info) (file : Node) (decls : list Node)
    (st : option Metadata * list Diagnostic) :
  noInitializer decls → InspectList (initVisitor info file) decls st = Ok st.
Proof.
  intros Hno. apply InspectList_pass.
  eapply Forall_impl; [exact Hno|]. intros m Hm s. by apply initVisitor_pass.
Qed.

Lemma initVisitor_untraceable (info : Info) (file : Node) (recv : option string)
    (name : Ident) (body arg : Node) (st : option Metadata * list Diagnostic) :
  Name name = "init" →
  findRegisterCallArgument info (Some body) = Ok (Some arg) →
  findConstructorFunc info file arg = Ok None →
  initVisitor info file (FuncDecl recv name (Some body)) st
  = Ok ((st.1, st.2 ++ [WarnUntraceable file]), false).
Proof.
  intros Hname Harg Hctor. unfold initVisitor. cbn [asFuncDecl FuncName Body].
  rewrite Hname, String.eqb_refl, Harg, bind_Ok, Hctor. reflexivity.
Qed.

Lemma findMetadataInFile_untraceable (info : Info) (pkgname : Ident)
    (before after : list Node) (recv : option string) (name : Ident) (body arg : Node) :
  let file := File pkgname (before ++ FuncDecl recv name (Some body) :: after) in
  Name name = "init" →
  findRegisterCallArgument info (Some body) = Ok (Some arg) →
  findConstructorFunc info file arg = Ok None →
  noInitializer before → noInitializer after →
  findMetadataInFile info file = Ok (None, [WarnUntraceable file]).
Proof.
  intros file Hname Harg Hctor Hbefore Hafter. unfold findMetadataInFile.
  rewrite Inspect_unfold.
  replace (initVisitor info file file (None, []))
    with (@Ok ((option Metadata * list Diagnostic) * bool) ((None, []), true))
    by (unfold file; reflexivity).
  rewrite bind_Ok.
  change (children file)
    with ([NIdent pkgname] ++ before ++ FuncDecl recv name (Some body) :: after).
  rewrite !InspectList_app. cbn [InspectList].
  rewrite (Inspect_unfold _ (NIdent pkgname)).
  replace (initVisitor info file (NIdent pkgname) (None, []))
    with (@Ok ((option Metadata * list Diagnostic) * bool) ((None, []), true))
    by reflexivity.
  cbn [children InspectList]. rewrite !bind_Ok, InspectList_app.
  rewrite InspectList_noInitializer, bind_Ok by done.
  cbn [InspectList]. rewrite Inspect_unfold.
  rewrite (initVisitor_untraceable info file recv name body arg (None, []) Hname Harg Hctor).
  rewrite !bind_Ok. cbn [fst snd app].
  by rewrite InspectList_noInitializer.
Qed.

(** C5, as the code has it. The Tracer knows the constructor by its name.
    For a call of a named function it returns the last declaration of the
    file that bears the callee's name, a function or a method, and nothing
    exactly when the file declares none. For a variable it resolves the
    variable to its object, takes the callee of the last assignment of the
    file that assigns a call, alone, to that same object, and returns the
    declaration of that name in the same way. Any other argument is
    untraceable. Where the Tracer returns nothing, the closure of the scan
    logs the warning for the file, keeps what it had found and passes the
    initializer over; a file with no other initializer yields no record,
    and the scan goes on with the next package. *)
Theorem findConstructorFunc_shapes (info : Info) (file : Node) :
  (∀ ident args,
     Name ident ≠ "" →
     ∃ r, findConstructorFunc info file (CallExpr (NIdent ident) args) = Ok r ∧
          r = last (hits (declPick (Name ident)) file) ∧
          (∀ d, r = Some d → declares file d ∧ Name (FuncName d) = Name ident) ∧
          (r = None ↔ ∀ d, declares file d → Name (FuncName d) ≠ Name ident)) ∧
  (∀ v, ObjectOf info v = None → findConstructorFunc info file (NIdent v) = Ok None) ∧
  (∀ v obj,
     ObjectOf info v = Some obj →
     ∃ r, findConstructorFunc info file (NIdent v) = Ok r ∧
          r = match last (hits (assignPick info obj) file) with
              | None => None
              | Some callee =>
                  if String.eqb callee "" then None
                  else last (hits (declPick callee) file)
              end ∧
          (∀ d, r = Some d →
                declares file d ∧
                ∃ m, m ∈ subnodes file ∧ assignsCall info obj m (Name (FuncName d))) ∧
          ((∀ m callee, m ∈ subnodes file → ¬ assignsCall info obj m callee) → r = None)) ∧
  (∀ arg, otherShape arg → findConstructorFunc info file arg = Ok None) ∧
  (∀ recv name body arg st,
     Name name = "init" →
     findRegisterCallArgument info (Some body) = Ok (Some arg) →
     findConstructorFunc info file arg = Ok None →
     initVisitor info file (FuncDecl recv name (Some body)) st
     = Ok ((st.1, st.2 ++ [WarnUntraceable file]), false)) ∧
  (∀ pkgname before recv name body after arg,
     file = File pkgname (before ++ FuncDecl recv name (Some body) :: after) →
     Name name = "init" →
     findRegisterCallArgument info (Some body) = Ok (Some arg) →
     findConstructorFunc info file arg = Ok None →
     noInitializer before → noInitializer after →
     findMetadataInFile info file = Ok (None, [WarnUntraceable file]) ∧
     ∀ path gofiles rest allMetadata log,
       isIrrelevantPackage (mkLoadedPackage path gofiles [file] info) = false →
       scanPackages (mkLoadedPackage path gofiles [file] info :: rest) allMetadata log
       = scanPackages rest allMetadata (log ++ [WarnUntraceable file])).
Proof.
  split; [|split; [|split; [|split; [|split]]]].
  - intros ident args Hname. rewrite findConstructorFunc_direct.
    exists (last (hits (declPick (Name ident)) file)).
    split; [by apply lookupDecl_last|]. split; [done|]. split.
    + intros d Hd.
      assert (Hrun : lookupDecl file (Name ident) = Ok (Some d))
        by (rewrite lookupDecl_last by done; by rewrite Hd).
      by apply lookupDecl_inv in Hrun as (? & ? & _).
    + split.
      * intros Hnone d Hd Hn.
        destruct (lookupDecl_found file (Name ident) Hname) as (d' & _ & _ & Hrun);
          [by exists d|].
        rewrite lookupDecl_last, Hnone in Hrun by done. discriminate.
      * intros Hnone. apply lookupDecl_missing in Hnone.
        rewrite lookupDecl_last in Hnone by done. by injection Hnone.
  - intros v Hobj. by rewrite findConstructorFunc_ident, Hobj.
  - intros v obj Hobj. rewrite findConstructorFunc_ident, Hobj.
    destruct (last (hits (assignPick info obj) file)) as [callee|] eqn:Hlast.
    + assert (Hassign : ∃ m, m ∈ subnodes file ∧ assignsCall info obj m callee).
      { apply last_Some_elem_of, hits_subnodes in Hlast as (m & Hm & Hpick).
        apply assignPick_spec in Hpick. by exists m. }
      destruct (String.eqb_spec callee "") as [->|Hne].
      * exists None. split; [done|]. split; [done|]. split; [done|]. done.
      * exists (last (hits (declPick callee) file)).
        split; [by apply lookupDecl_last|]. split; [done|]. split.
        -- intros d Hd.
           assert (Hrun : lookupDecl file callee = Ok (Some d))
             by (rewrite lookupDecl_last by done; by rewrite Hd).
           apply lookupDecl_inv in Hrun as (Hdecl & Hn & _). by rewrite Hn.
        -- intros Hnone. destruct Hassign as (m & Hm & Hassign).
           by destruct (Hnone m callee Hm).
    + exists None. by repeat split.
  - apply findConstructorFunc_other.
  - intros recv name body arg st. apply initVisitor_untraceable.
  - intros pkgname before recv name body after arg -> Hname Harg Hctor Hbefore Hafter.
    assert (Hfile := findMetadataInFile_untraceable info pkgname before after recv name
                       body arg Hname Harg Hctor Hbefore Hafter).
    cbv zeta in Hfile. split; [exact Hfile|].
    intros path gofiles rest allMetadata log Hrel.
    cbn [scanPackages]. rewrite Hrel.
    unfold findMetadataInPackage. cbn [TypesInfo Syntax findMetadataInFiles].
    rewrite Hfile. reflexivity.
Qed.

Lemma findConstructorFunc_shapes_witness :
  Name (mkIdent 20 "NewFoo") ≠ "" ∧
  findConstructorFunc info0 directFile (call0 20 "NewFoo") = Ok (Some newFooDecl) ∧
  ObjectOf infoTwoVars (mkIdent 19 "c") = Some varC ∧
  ObjectOf infoTwoVars (mkIdent 52 "c") = Some otherC ∧
  sameObject otherC varC = false ∧
  findConstructorFunc infoTwoVars twoVarsFile (NIdent (mkIdent 19 "c")) = Ok (Some newFooDecl) ∧
  otherShape (BasicLit INT "42") ∧
  findConstructorFunc info0 untraceableFile (BasicLit INT "42") = Ok None ∧
  findMetadataInFile info0 untraceableFile = Ok (None, [WarnUntraceable untraceableFile]) ∧
  scanPackages
    [mkLoadedPackage "example.com/plugins/lit" ["plugin.go"] [untraceableFile] info0; pkgA] [] []
  = scanPackages [pkgA] [] ([] ++ [WarnUntraceable untraceableFile]).
Proof.
  assert (Hname : Name (mkIdent 20 "NewFoo") ≠ "") by discriminate.
  assert (Hshape : otherShape (BasicLit INT "42")) by (split; discriminate).
  destruct (findConstructorFunc_shapes info0 directFile) as (Hdirect & _).
  destruct (findConstructorFunc_shapes infoTwoVars twoVarsFile) as (_ & _ & Hindirect & _).
  destruct (findConstructorFunc_shapes info0 untraceableFile)
    as (_ & _ & _ & Hother & _ & Hskip).
  split; [exact Hname|].
  split.
  { destruct (Hdirect (mkIdent 20 "NewFoo") [] Hname) as (r & Hrun & -> & _). exact Hrun. }
  split; [reflexivity|]. split; [reflexivity|]. split; [reflexivity|].
  split.
  { destruct (Hindirect (mkIdent 19 "c") varC eq_refl) as (r & Hrun & -> & _). exact Hrun. }
  split; [exact Hshape|].
  split; [by apply Hother|].
  assert (Hafter : noInitializer
            [FuncDecl None (mkIdent 30 "NewFoo")
               (Some (BlockStmt [ReturnStmt [metadataLit 40 "foo" "Foo"]]))]).
  { unfold noInitializer. simpl. repeat constructor; intros d [= <-]; discriminate. }
  destruct (Hskip (mkIdent 0 "plugin") [] None (mkIdent 10 "init")
              (BlockStmt [ExprStmt (CallExpr (qualified 11 "adapter" "Register")
                                             [BasicLit INT "42"])])
              [FuncDecl None (mkIdent 30 "NewFoo")
                 (Some (BlockStmt [ReturnStmt [metadataLit 40 "foo" "Foo"]]))]
              (BasicLit INT "42") eq_refl eq_refl eq_refl (Hother _ Hshape)
              (List.Forall_nil _) Hafter) as [Hfile Hscan].
  split; [exact Hfile|].
  apply (Hscan "example.com/plugins/lit" ["plugin.go"] [pkgA] [] [] eq_refl).
Defined.

(** C5, as stated, fails. The call [NewFoo()] is a call of the function,
    which the file declares; the Tracer returns the method of the same name
    declared after it, and the record of the file is the method's. And a
    file is not passed over because one of its initializers registers an
    argument of neither shape: the warning is logged and the record of the
    other initializer is returned. *)
Lemma findConstructorFunc_returns_method :
  ObjectOf infoShadowed (mkIdent 20 "NewFoo") = Some newFooFn ∧
  ObjectOf infoShadowed (FuncName funcNewFoo) = Some newFooFn ∧
  ObjectOf infoShadowed (FuncName methodNewFoo) = Some newFooMethod ∧
  sameObject newFooMethod newFooFn = false ∧
  declares shadowedFile funcNewFoo ∧
  Recv funcNewFoo = None ∧ Recv methodNewFoo = Some "Factory" ∧
  findConstructorFunc infoShadowed shadowedFile (call0 20 "NewFoo") = Ok (Some methodNewFoo) ∧
  findMetadataInFile infoShadowed shadowedFile
  = Ok (Some (mkMetadata "other" "Other" "" "" "" ""), []) ∧
  otherShape (BasicLit INT "42") ∧
  findMetadataInFile info0 twoInitsFile
  = Ok (Some (mkMetadata "foo" "Foo" "" "" "" ""), [WarnUntraceable twoInitsFile]).
Proof.
  repeat split; try discriminate.
  unfold declares. simpl. repeat first [apply list_elem_of_here | apply list_elem_of_further].
Qed.

End TracerShapes.

(** ** The scan of a file and of the packages *)

Section ScanFacts.
Import Metagen Fixtures Samples.

Lemma asFuncDecl_declares (file n : Node) (d : FuncDeclT) :
  n ∈ subnodes file → asFuncDecl n = Some d → declares file d.
Proof. destruct n; try done. intros Hn [= <-]. exact Hn. Qed.

Lemma findMetadataInFile_inv (info : Info) (file : Node) (m : Metadata)
    (log : list Diagnostic) :
  findMetadataInFile info file = Ok (Some m, log) →
  Id m ≠ "" ∧ tracedIn info file m.
Proof.
  intros Hfound.
  pose (P := λ st : option Metadata * list Diagnostic,
               ∀ m, st.1 = Some m → tracedIn info file m).
  assert (HP : P (Some m, log)).
  { eapply (Inspect_invariant (initVisitor info file) P file); [| |exact Hfound].
    - intros n st st' d Hn Hst. unfold initVisitor.
      destruct (asFuncDecl n) as [init|] eqn:Hdecl; [|by intros [= <- _]].
      destruct (String.eqb_spec (Name (FuncName init)) "init") as [Hname|];
        [|by intros [= <- _]].
      destruct (findRegisterCallArgument info (Body init)) as [[arg|]|msg] eqn:Harg;
        simpl; try done; [|by intros [= <- _]].
      destruct (findConstructorFunc info file arg) as [[ctor|]|msg] eqn:Hctor;
        simpl; try done; [|by intros [= <- _]].
      destruct (findMetadataInFuncBody info (Body ctor)) as [[m0|]|msg] eqn:Hmeta;
        simpl; try done; [|by intros [= <- _]].
      intros [= <- _] m1 [= <-]. exists init, arg, ctor.
      repeat split; try done.
      + by eapply asFuncDecl_declares.
      + by apply findConstructorFunc_inv in Hctor as [? _].
    - by intros m0. }
  split; [|by apply HP].
  destruct (HP m eq_refl) as (init & arg & ctor & _ & _ & _ & _ & _ & Hmeta).
  destruct (Body ctor) as [block|]; [|discriminate Hmeta].
  by apply findMetadataInFuncBody_inv in Hmeta as [? _].
Qed.

(** X9. A record found in a file has a non-empty Id and comes through the
    whole chain: an [init] declared in the file, the argument of its
    registration call, the constructor traced from it in the same file, and
    a literal of that constructor's body. *)
Theorem findMetadataInFile_sound (info : Info) (file : Node) (m : Metadata)
    (log : list Diagnostic) :
  findMetadataInFile info file = Ok (Some m, log) →
  Id m ≠ "" ∧
  ∃ init arg ctor,
    declares file init ∧ Name (FuncName init) = "init" ∧
    findRegisterCallArgument info (Body init) = Ok (Some arg) ∧
    findConstructorFunc info file arg = Ok (Some ctor) ∧
    declares file ctor ∧
    findMetadataInFuncBody info (Body ctor) = Ok (Some m).
Proof. apply findMetadataInFile_inv. Qed.

Lemma findMetadataInFile_sound_witness :
  findMetadataInFile info0 directFile = Ok (Some (mkMetadata "foo" "Foo" "" "" "" ""), []) ∧
  Id (mkMetadata "foo" "Foo" "" "" "" "") ≠ "".
Proof.
  assert (Hrun : findMetadataInFile info0 directFile
                 = Ok (Some (mkMetadata "foo" "Foo" "" "" "" ""), [])) by reflexivity.
  split; [exact Hrun|].
  apply (findMetadataInFile_sound info0 directFile _ _ Hrun).
Defined.

(** X10. A file in which every [init] has a body and none of these bodies
    holds a registration call yields no record and no diagnostic, and its
    scan does not panic: neither the Tracer nor the Extractor is run. *)
Theorem findMetadataInFile_no_registration (info : Info) (file : Node) :
  (∀ init, declares file init → Name (FuncName init) = "init" →
           ∃ body, Body init = Some body ∧
                   Forall (λ m, registerPick info m = None) (subnodes body)) →
  findMetadataInFile info file = Ok (None, []).
Proof.
  intros Hnone. unfold findMetadataInFile. apply Inspect_unchanged.
  intros n st Hn. unfold initVisitor.
  destruct (asFuncDecl n) as [init|] eqn:Hdecl; [|by eexists].
  destruct (String.eqb_spec (Name (FuncName init)) "init") as [Hname|]; [|by eexists].
  destruct (Hnone init) as (body & -> & Hbody); [by eapply asFuncDecl_declares | done |].
  unfold findRegisterCallArgument, InspectBlock.
  rewrite (Inspect_ext _ _ (registerVisitor_find info)).
  rewrite Inspect_find_none; [by eexists | exact Hbody].
Qed.

Lemma findMetadataInFile_no_registration_witness :
  declares idleFile idleInit ∧ Name (FuncName idleInit) = "init" ∧
  findMetadataInFile info0 idleFile = Ok (None, []).
Proof.
  split; [|split; [reflexivity|]].
  { unfold declares. simpl. repeat first [apply list_elem_of_here | apply list_elem_of_further]. }
  apply (findMetadataInFile_no_registration info0 idleFile).
  intros init Hd Hname. exists idleBody.
  assert (Hbody : Forall (λ m, registerPick info0 m = None) (subnodes idleBody))
    by (simpl; repeat constructor).
  split; [|exact Hbody].
  unfold declares in Hd. simpl in Hd.
  repeat (apply elem_of_cons in Hd as [Hd|Hd]; [try discriminate|]).
  - by injection Hd as _ _ ->.
  - injection Hd as _ Hn _. rewrite Hn in Hname. discriminate.
  - by apply elem_of_nil in Hd.
Defined.

Lemma scanPackages_app (l1 l2 : list LoadedPackage) :
  ∀ allMetadata log,
    scanPackages (l1 ++ l2) allMetadata log
    = (r ← scanPackages l1 allMetadata log; scanPackages l2 r.1 r.2).
Proof.
  induction l1 as [|pkg l1 IH]; intros allMetadata log; [done|].
  cbn [app scanPackages]. destruct (isIrrelevantPackage pkg); [apply IH|].
  destruct (findMetadataInPackage pkg) as [[[m|] l]|msg]; simpl; try done; apply IH.
Qed.

Lemma findMetadataInFiles_first (info : Info) (files : list Node) :
  ∀ log r log',
    findMetadataInFiles info files log = Ok (r, log') →
    match r with
    | Some m =>
        ∃ pre file post l,
          files = pre ++ file :: post ∧ passedOver info pre ∧
          findMetadataInFile info file = Ok (Some m, l)
    | None => passedOver info files
    end.
Proof.
  induction files as [|file rest IH]; intros log r log'; cbn [findMetadataInFiles].
  { intros [= <- _]. constructor. }
  destruct (findMetadataInFile info file) as [[[m0|] l]|msg] eqn:Hfile; simpl; try done.
  - intros [= <- _]. exists [], file, rest, l. repeat split; [constructor | done].
  - intros Hrest. specialize (IH _ _ _ Hrest). destruct r as [m|].
    + destruct IH as (pre & f & post & l' & -> & Hpre & Hf).
      exists (file :: pre), f, post, l'. repeat split; [|done].
      constructor; [by exists l | done].
    + constructor; [by exists l | done].
Qed.

(** X11. The scan keeps what was collected before and adds, in the order of
    the packages, at most one record for each package: nothing for a
    package that is filtered out or has no file that yields a record, else
    the record, of non-empty Id, of the first file of the package that
    yields one. *)
Theorem scanPackages_adds (pkgs : list LoadedPackage) :
  ∀ allMetadata log allMetadata' log',
    scanPackages pkgs allMetadata log = Ok (allMetadata', log') →
    ∃ found : list (option Metadata),
      Forall2 contributes pkgs found ∧
      allMetadata' = allMetadata ++ omap id found.
Proof.
  induction pkgs as [|pkg rest IH]; intros allMetadata log allMetadata' log';
    cbn [scanPackages].
  { intros [= <- _]. exists []. split; [constructor | by rewrite app_nil_r]. }
  destruct (isIrrelevantPackage pkg) eqn:Hrel.
  { intros (found & Hall & ->)%IH. exists (None :: found).
    split; [constructor; [by left | done] | done]. }
  destruct (findMetadataInPackage pkg) as [[[m|] l]|msg] eqn:Hpkg; simpl; try done.
  - intros (found & Hall & ->)%IH. exists (Some m :: found).
    split; [|by rewrite <- app_assoc].
    constructor; [|done].
    apply findMetadataInFiles_first in Hpkg as (pre & file & post & l0 & Hsplit & Hpre & Hrun).
    split; [done|]. split; [by apply findMetadataInFile_inv in Hrun as [? _]|].
    by exists pre, file, post, l0.
  - intros (found & Hall & ->)%IH. exists (None :: found).
    split; [|done]. constructor; [|done].
    right. by apply findMetadataInFiles_first in Hpkg.
Qed.

Lemma scanPackages_adds_witness :
  scanPackages [pkgA; toolPackage; emptyPackage] [recBar] []
    = Ok ([recBar; mkMetadata "dup" "A" "" "" "" ""], []) ∧
  ∃ found, Forall2 contributes [pkgA; toolPackage; emptyPackage] found ∧
           [recBar; mkMetadata "dup" "A" "" "" "" ""] = [recBar] ++ omap id found.
Proof.
  assert (Hrun : scanPackages [pkgA; toolPackage; emptyPackage] [recBar] []
                 = Ok ([recBar; mkMetadata "dup" "A" "" "" "" ""], [])) by reflexivity.
  split; [exact Hrun|].
  apply (scanPackages_adds _ _ _ _ _ Hrun).
Defined.

Lemma InspectList_panics {S : Type} (f : Node → S → Res (S * bool))
    (before after : list Node) (d : Node) :
  (∀ s, ∃ msg, Inspect f d s = Panic msg) →
  ∀ s, ∃ msg, InspectList f (before ++ d :: after) s = Panic msg.
Proof.
  intros Hd s. rewrite InspectList_app.
  destruct (InspectList f before s) as [s1|msg]; [|by exists msg].
  rewrite bind_Ok. cbn [InspectList]. destruct (Hd s1) as [msg ->]. by exists msg.
Qed.

(** X22. A declaration without body that the scan comes to makes it
    panic. The scan of a file panics when one of its declarations is an
    [init] without body, or an [init] whose registered constructor the file
    declares without body; and the scan of the packages panics at a package
    that is not filtered out and has such a file first. *)
Theorem findMetadataInFile_nil_body (info : Info) (pkgname : Ident)
    (before after : list Node) (recv : option string) (name : Ident)
    (body : option Node) :
  let file := File pkgname (before ++ FuncDecl recv name body :: after) in
  Name name = "init" →
  (body = None ∨
   ∃ arg ctor, findRegisterCallArgument info body = Ok (Some arg) ∧
               findConstructorFunc info file arg = Ok (Some ctor) ∧ Body ctor = None) →
  (∃ msg, findMetadataInFile info file = Panic msg) ∧
  (∀ path gofiles files rest allMetadata log,
     isIrrelevantPackage (mkLoadedPackage path gofiles (file :: files) info) = false →
     ∃ msg, scanPackages (mkLoadedPackage path gofiles (file :: files) info :: rest)
                         allMetadata log = Panic msg).
Proof.
  intros file Hname Hbody.
  assert (Hdecl : ∀ st, ∃ msg,
            Inspect (initVisitor info file) (FuncDecl recv name body) st = Panic msg).
  { intros st. rewrite Inspect_unfold. unfold initVisitor. cbn [asFuncDecl FuncName Body].
    rewrite Hname, String.eqb_refl.
    destruct Hbody as [->|(arg & ctor & Harg & Hctor & Hnil)]; [by eexists|].
    rewrite Harg, bind_Ok, Hctor, bind_Ok, Hnil. by eexists. }
  assert (Hfile : ∃ msg, findMetadataInFile info file = Panic msg).
  { unfold findMetadataInFile. rewrite Inspect_unfold.
    replace (initVisitor info file file (None, []))
      with (@Ok ((option Metadata * list Diagnostic) * bool) ((None, []), true))
      by (unfold file; reflexivity).
    rewrite bind_Ok.
    change (children file)
      with ((NIdent pkgname :: before) ++ FuncDecl recv name body :: after).
    by apply InspectList_panics. }
  split; [exact Hfile|].
  intros path gofiles files rest allMetadata log Hrel.
  destruct Hfile as [msg Hfile]. exists msg.
  cbn [scanPackages]. rewrite Hrel.
  unfold findMetadataInPackage. cbn [TypesInfo Syntax findMetadataInFiles].
  by rewrite Hfile.
Qed.

Lemma findMetadataInFile_nil_body_witness :
  findConstructorFunc info0 externFile (call0 20 "NewFoo")
    = Ok (Some (mkFuncDecl None (mkIdent 30 "NewFoo") None)) ∧
  findMetadataInFile info0 externFile = Panic nilDereference ∧
  ∃ msg, scanPackages
           [mkLoadedPackage "example.com/plugins/ext" ["plugin.go"] [externFile] info0; pkgA]
           [] [] = Panic msg.
Proof.
  split; [reflexivity|]. split; [reflexivity|].
  apply (findMetadataInFile_nil_body info0 (mkIdent 0 "plugin") []
           [FuncDecl None (mkIdent 30 "NewFoo") None] None (mkIdent 10 "init")
           (Some (BlockStmt [ExprStmt (CallExpr (qualified 11 "adapter" "Register")
                                                [call0 20 "NewFoo"])]))
           eq_refl).
  - right. exists (call0 20 "NewFoo"), (mkFuncDecl None (mkIdent 30 "NewFoo") None).
    by repeat split.
  - reflexivity.
Defined.

Lemma prefix_app_true (sub post : string) : String.prefix sub (sub +:+ post) = true.
Proof.
  induction sub as [|c sub IH]; rewrite ?app_cons, ?app_empty; simpl.
  - by destruct post.
  - destruct (ascii_dec c c); [exact IH | done].
Qed.

Lemma Contains_prefix (s sub : string) :
  String.prefix sub s = true → Strings.Contains s sub = true.
Proof. destruct s; simpl; unfold Strings.HasPrefix; by intros ->. Qed.

Lemma Contains_app (pre sub post : string) :
  Strings.Contains (pre +:+ sub +:+ post) sub = true.
Proof.
  induction pre as [|c pre IH]; rewrite ?app_empty.
  - apply Contains_prefix, prefix_app_true.
  - rewrite (app_cons c pre). simpl. rewrite IH. apply orb_true_r.
Qed.

Lemma prefix_inv (sub s : string) :
  String.prefix sub s = true → ∃ post, s = sub +:+ post.
Proof.
  revert s. induction sub as [|c sub IH]; intros s; [by exists s|].
  destruct s as [|c' s]; simpl; [done|].
  destruct (ascii_dec c c') as [<-|]; [|done].
  intros [post ->]%IH. by exists post.
Qed.

Lemma Contains_inv (s sub : string) :
  Strings.Contains s sub = true → ∃ pre post, s = pre +:+ sub +:+ post.
Proof.
  induction s as [|c s IH]; cbn [Strings.Contains]; unfold Strings.HasPrefix.
  - rewrite orb_false_r. intros [post Hpost]%prefix_inv. by exists "", post.
  - intros [[post Hpost]%prefix_inv|[pre [post ->]]%IH]%orb_true_iff.
    + by exists "", post.
    + by exists (String c pre), post.
Qed.

(** X12. A package is filtered out exactly when its path holds the text
    [/tools] anywhere or it has no Go files, and the scan is the same with
    or without such a package, whatever its files hold. *)
Theorem scanPackages_skips_irrelevant (before after : list LoadedPackage)
    (pkg : LoadedPackage) (allMetadata : list Metadata) (log : list Diagnostic) :
  (isIrrelevantPackage pkg = true ↔
   (∃ pre post, PkgPath pkg = pre +:+ "/tools" +:+ post) ∨ GoFiles pkg = []) ∧
  (isIrrelevantPackage pkg = true →
   scanPackages (before ++ pkg :: after) allMetadata log
   = scanPackages (before ++ after) allMetadata log).
Proof.
  split.
  - unfold isIrrelevantPackage. rewrite orb_true_iff. split.
    + intros [Hpath|Hfiles]; [left; by apply Contains_inv | right].
      destruct (GoFiles pkg); [done | discriminate].
    + intros [(pre & post & ->)| ->]; [left; apply Contains_app | by right].
  - intros Hirr. rewrite !scanPackages_app.
    destruct (scanPackages before allMetadata log) as [r|msg]; [|done].
    rewrite !bind_Ok. cbn [scanPackages]. by rewrite Hirr.
Qed.

Lemma scanPackages_skips_irrelevant_witness :
  (∃ pre post, PkgPath toolPackage = pre +:+ "/tools" +:+ post) ∧
  isIrrelevantPackage toolPackage = true ∧
  scanPackages ([pkgA] ++ toolPackage :: [pkgB]) [] []
  = scanPackages ([pkgA] ++ [pkgB]) [] [].
Proof.
  assert (Hpath : ∃ pre post, PkgPath toolPackage = pre +:+ "/tools" +:+ post)
    by (by exists "github.com/meloshub/meloshub", "/metagen").
  destruct (scanPackages_skips_irrelevant [pkgA] [pkgB] toolPackage [] [])
    as [Hirr Hskip].
  split; [exact Hpath|]. split; [by apply Hirr; left | apply Hskip; by apply Hirr; left].
Defined.

End ScanFacts.

(** ** The run of the scanner *)

Section RunFacts.
Import Metagen Fixtures Samples.

Lemma ltb_true_leb (a b : string) : String.ltb a b = true → String.leb a b = true.
Proof. unfold String.ltb, String.leb. by destruct (String.compare a b). Qed.

Lemma ltb_false_leb (a b : string) : String.ltb a b = false → String.leb b a = true.
Proof.
  unfold String.ltb, String.leb. rewrite (String.compare_antisym b a).
  by destruct (String.compare a b).
Qed.

Lemma leb_trans (a b c : string) :
  String.leb a b = true → String.leb b c = true → String.leb a c = true.
Proof.
  intros Hab Hbc. apply Is_true_true.
  change (String.le a c). transitivity b; unfold String.le; by apply Is_true_true.
Qed.

Lemma insertById_perm (m : Metadata) (sorted : list Metadata) :
  insertById m sorted ≡ₚ m :: sorted.
Proof.
  induction sorted as [|x rest IH]; simpl; [done|].
  destruct (String.ltb (Id m) (Id x)); [done|]. rewrite IH. apply Permutation_swap.
Qed.

Lemma insertById_sorted (m : Metadata) (sorted : list Metadata) :
  StronglySorted byId sorted → StronglySorted byId (insertById m sorted).
Proof.
  induction 1 as [|x rest Hrest IH Hx]; simpl.
  { repeat constructor. }
  destruct (String.ltb (Id m) (Id x)) eqn:Hlt.
  - constructor; [by constructor|].
    apply ltb_true_leb in Hlt. constructor; [exact Hlt|].
    eapply Forall_impl; [exact Hx|]. intros y Hy. by eapply leb_trans.
  - constructor; [exact IH|]. rewrite insertById_perm.
    constructor; [by apply ltb_false_leb | exact Hx].
Qed.

Lemma sortById_spec (l : list Metadata) :
  sortById l ≡ₚ l ∧ StronglySorted byId (sortById l).
Proof.
  unfold sortById.
  assert (Hgen : ∀ acc, StronglySorted byId acc →
            foldl (λ sorted m, insertById m sorted) acc l ≡ₚ acc ++ l ∧
            StronglySorted byId (foldl (λ sorted m, insertById m sorted) acc l)).
  { induction l as [|m l IH]; intros acc Hacc; simpl.
    - by rewrite app_nil_r.
    - destruct (IH (insertById m acc)) as [Hperm Hsorted]; [by apply insertById_sorted|].
      split; [|done]. rewrite Hperm, insertById_perm. simpl.
      apply Permutation_middle. }
  destruct (Hgen []) as [Hperm Hsorted]; [constructor|]. by split.
Qed.

(** X13. When the scanner writes its output, the bytes are the marshalled
    scan put in the order of the Ids, holding the same records as the scan;
    and unless no file was at the output path before, the Ids of the
    records written are pairwise distinct. *)
Theorem report_written
    (yaml_Unmarshal : string → string + list Metadata)
    (yaml_Marshal : list Metadata → string + string)
    (allMetadata : list Metadata) (outputFile : string) (env : Env)
    (path data : string) :
  report yaml_Unmarshal yaml_Marshal allMetadata outputFile env = Written path data →
  path = outputFile ∧
  ∃ sorted,
    yaml_Marshal sorted = inr data ∧
    sorted ≡ₚ allMetadata ∧ StronglySorted byId sorted ∧
    (existing env ≠ NotExist → NoDup (Id <$> sorted)).
Proof.
  unfold report.
  destruct (checkConflicts yaml_Unmarshal allMetadata outputFile (existing env))
    as [e|] eqn:Hcheck; [done|].
  destruct (yaml_Marshal (sortById allMetadata)) as [err|yamlData] eqn:Hmarshal; [done|].
  destruct (writeError env); [done|]. intros [= <- <-]. split; [done|].
  destruct (sortById_spec allMetadata) as [Hperm Hsorted].
  exists (sortById allMetadata). repeat split; try done.
  intros Hexists. rewrite Hperm.
  unfold checkConflicts in Hcheck.
  destruct (existing env) as [| | |existingData]; try done.
  destruct (yaml_Unmarshal existingData); [done|].
  by apply checkLoop_None in Hcheck as [? _].
Qed.

Lemma report_written_witness :
  report parsePublished marshalIds published "adapters.yaml" (mkEnv (Exists "snapshot") None)
    = Written "adapters.yaml" "a,b" ∧
  ∃ sorted, marshalIds sorted = inr "a,b" ∧ sorted ≡ₚ published ∧
            StronglySorted byId sorted ∧
            (Exists "snapshot" ≠ NotExist → NoDup (Id <$> sorted)).
Proof.
  assert (Hrun : report parsePublished marshalIds published "adapters.yaml"
                   (mkEnv (Exists "snapshot") None) = Written "adapters.yaml" "a,b")
    by (vm_compute; reflexivity).
  split; [exact Hrun|].
  apply (report_written parsePublished marshalIds published "adapters.yaml"
           (mkEnv (Exists "snapshot") None) "adapters.yaml" "a,b" Hrun).
Defined.

Lemma checkLoop_first (existingIdSet : gmap string bool) (e : Error)
    (rest : list Metadata) :
  ∀ seen newIdSet,
    (∀ k, indexMap newIdSet k = true ↔ k ∈ Id <$> seen) →
    NoDup (Id <$> seen) →
    checkLoop existingIdSet rest newIdSet = Some e →
    ∃ pre a mid b post,
      seen ++ rest = pre ++ a :: mid ++ b :: post ∧ Id a = Id b ∧
      NoDup (Id <$> (pre ++ a :: mid)) ∧ e = ErrDuplicateId (Id b).
Proof.
  induction rest as [|meta rest IH]; intros seen newIdSet Hset Hnd; simpl; [done|].
  assert (Hsame : ∀ (b : bool) (x : option Error), (if b then x else x) = x)
    by (by intros [|]).
  rewrite Hsame.
  destruct (indexMap newIdSet (Id meta)) eqn:Hseen.
  - intros [= <-]. apply Hset, list_elem_of_fmap in Hseen as (a & Ha & Hin).
    apply list_elem_of_split in Hin as (pre & mid & ->).
    exists pre, a, mid, meta, rest.
    split; [by rewrite <- app_assoc|]. by split.
  - intros Hloop.
    destruct (IH (seen ++ [meta]) (<[Id meta := true]> newIdSet))
      as (pre & a & mid & b & post & Heq & Hab & Hnd' & He); [| |exact Hloop|].
    + intros k. rewrite indexMap_insert, fmap_app, elem_of_app, <- Hset. simpl.
      rewrite list_elem_of_singleton.
      destruct (decide (Id meta = k)) as [->|]; [tauto|].
      split; [tauto|]. intros [?|?]; [done | congruence].
    + rewrite fmap_app. apply NoDup_app. split; [done|]. split; [|apply NoDup_singleton].
      intros k Hk ->%list_elem_of_singleton.
      apply Hset in Hk. congruence.
    + exists pre, a, mid, b, post. rewrite <- Heq, <- app_assoc. done.
Qed.

(** X14. With a snapshot that parses, the error of [checkConflicts] names
    the first Id of the scan that repeats an earlier one: the records
    before that one have pairwise distinct Ids. *)
Theorem checkConflicts_first_repeat
    (yaml_Unmarshal : string → string + list Metadata)
    (newMetadata existingMetadata : list Metadata) (filePath existingData : string)
    (e : Error) :
  yaml_Unmarshal existingData = inr existingMetadata →
  checkConflicts yaml_Unmarshal newMetadata filePath (Exists existingData) = Some e →
  ∃ pre a mid b post,
    newMetadata = pre ++ a :: mid ++ b :: post ∧ Id a = Id b ∧
    NoDup (Id <$> (pre ++ a :: mid)) ∧ e = ErrDuplicateId (Id b).
Proof.
  intros Hparse. unfold checkConflicts. rewrite Hparse. intros Hloop.
  apply (checkLoop_first _ e newMetadata [] ∅) in Hloop; [done| |constructor].
  intros k. unfold indexMap. rewrite lookup_empty. simpl.
  split; [done | by intros ?%elem_of_nil].
Qed.

Lemma checkConflicts_first_repeat_witness :
  parsePublished "snapshot" = inr published ∧
  checkConflicts parsePublished [recBar; recFoo; recBar; recFoo] "adapters.yaml"
                 (Exists "snapshot") = Some (ErrDuplicateId "bar") ∧
  ∃ pre a mid b post,
    [recBar; recFoo; recBar; recFoo] = pre ++ a :: mid ++ b :: post ∧ Id a = Id b ∧
    NoDup (Id <$> (pre ++ a :: mid)) ∧ ErrDuplicateId "bar" = ErrDuplicateId (Id b).
Proof.
  assert (Hrun : checkConflicts parsePublished [recBar; recFoo; recBar; recFoo]
                   "adapters.yaml" (Exists "snapshot") = Some (ErrDuplicateId "bar"))
    by (vm_compute; reflexivity).
  split; [reflexivity|]. split; [exact Hrun|].
  apply (checkConflicts_first_repeat parsePublished [recBar; recFoo; recBar; recFoo]
           published "adapters.yaml" "snapshot" (ErrDuplicateId "bar") eq_refl Hrun).
Defined.

End RunFacts.

(** ** The Differ, further *)

Section DifferMore.
Import Differ Fixtures Samples.
Variable yaml_Marshal : Metadata → string + string.

Lemma omap_none {A B : Type} (f : A → option B) (l : list A) :
  (∀ x, x ∈ l → f x = None) → omap f l = [].
Proof.
  induction l as [|x l IH]; intros Hnone; simpl; [done|].
  rewrite (Hnone x) by apply list_elem_of_here.
  apply IH. intros y Hy. apply Hnone. by apply list_elem_of_further.
Qed.

Lemma omap_some {A B : Type} (f : A → option B) (g : A → B) (l : list A) :
  (∀ x, x ∈ l → f x = Some (g x)) → omap f l = g <$> l.
Proof.
  induction l as [|x l IH]; intros Hsome; simpl; [done|].
  rewrite (Hsome x) by apply list_elem_of_here. simpl. f_equal.
  apply IH. intros y Hy. apply Hsome. by apply list_elem_of_further.
Qed.

Lemma updatedOf_elem (oldMap : gmap string Metadata) (order : list (string * Metadata))
    (newMap : gmap string Metadata) (b a : Metadata) :
  (∀ k m, (k, m) ∈ order ↔ newMap !! k = Some m) →
  mkUpdateEntry b a ∈ omap (updatedOf yaml_Marshal oldMap) order ↔
  ∃ k, oldMap !! k = Some b ∧ newMap !! k = Some a ∧
       serialized yaml_Marshal b ≠ serialized yaml_Marshal a.
Proof.
  intros Hin. rewrite list_elem_of_omap. split.
  - intros ([k x] & Hx & Hf). apply Hin in Hx.
    unfold updatedOf in Hf. simpl in Hf.
    destruct (oldMap !! k) as [o|] eqn:Hk; [|done].
    destruct (String.eqb_spec (serialized yaml_Marshal o) (serialized yaml_Marshal x))
      as [|Hne]; [done|].
    simpl in Hf. injection Hf as -> ->. by exists k.
  - intros (k & Ho & Hn & Hne). exists (k, a). split; [by apply Hin|].
    unfold updatedOf. simpl. rewrite Ho.
    by destruct (String.eqb_spec (serialized yaml_Marshal b) (serialized yaml_Marshal a)).
Qed.

(** X15. A snapshot compared with itself gives the empty report, in
    whatever order the maps are ranged over and whatever the list repeats. *)
Theorem compareMetadata_same (l : list Metadata) (r : ChangeReport) :
  isReport yaml_Marshal l l r →
  Added r = [] ∧ Removed r = [] ∧ Updated r = [].
Proof.
  intros (newOrder & oldOrder & Hnew & Hold & ->). rewrite compareIn_eq. simpl.
  assert (HinNew : ∀ k m, (k, m) ∈ newOrder → toMap l !! k = Some m).
  { intros k m. rewrite Hnew. apply elem_of_map_to_list. }
  assert (HinOld : ∀ k m, (k, m) ∈ oldOrder → toMap l !! k = Some m).
  { intros k m. rewrite Hold. apply elem_of_map_to_list. }
  repeat split; apply omap_none; intros [k m] Hx.
  - unfold addedOf. simpl. by rewrite (HinNew k m Hx).
  - unfold removedOf. simpl. by rewrite (HinOld k m Hx).
  - unfold updatedOf. simpl. rewrite (HinNew k m Hx).
    by rewrite String.eqb_refl.
Qed.

Lemma recordsOf_toMap (l : list Metadata) :
  NoDup (Id <$> l) → recordsOf (toMap l) ≡ₚ l.
Proof.
  unfold recordsOf. induction l as [|x l IH] using rev_ind; intros Hnd.
  { unfold toMap. simpl. by rewrite map_to_list_empty. }
  rewrite fmap_app in Hnd. apply NoDup_app in Hnd as (Hl & Hx & _).
  rewrite toMap_snoc, map_to_list_insert.
  - rewrite fmap_cons. simpl. rewrite IH by done. by rewrite Permutation_app_comm.
  - destruct (toMap l !! Id x) as [m|] eqn:Hm; [exfalso|done].
    apply (toMap_key yaml_Marshal) in Hm as [Hid Hin].
    apply (Hx (Id x)); [|apply list_elem_of_here].
    rewrite <- Hid. apply list_elem_of_fmap. eauto.
Qed.

Lemma isReport_old_empty (l : list Metadata) (r : ChangeReport) :
  isReport yaml_Marshal [] l r →
  Added r ≡ₚ recordsOf (toMap l) ∧ Removed r = [] ∧ Updated r = [].
Proof.
  intros (newOrder & oldOrder & Hnew & Hold & ->). rewrite compareIn_eq. simpl.
  assert (HoldNil : oldOrder = []).
  { apply Permutation_nil_r. rewrite Hold. unfold toMap. simpl.
    by rewrite map_to_list_empty. }
  split; [|split].
  - rewrite (omap_some _ snd) by (by intros [k m] _). unfold recordsOf. by rewrite Hnew.
  - by rewrite HoldNil.
  - by apply omap_none; intros [k m] _.
Qed.

Lemma isReport_new_empty (l : list Metadata) (r : ChangeReport) :
  isReport yaml_Marshal l [] r →
  Removed r ≡ₚ recordsOf (toMap l) ∧ Added r = [] ∧ Updated r = [].
Proof.
  intros (newOrder & oldOrder & Hnew & Hold & ->). rewrite compareIn_eq. simpl.
  assert (HnewNil : newOrder = []).
  { apply Permutation_nil_r. rewrite Hnew. unfold toMap. simpl.
    by rewrite map_to_list_empty. }
  split; [|split].
  - rewrite (omap_some _ snd) by (by intros [k m] _). unfold recordsOf. by rewrite Hold.
  - by rewrite HnewNil.
  - by rewrite HnewNil.
Qed.

(** X16. Against an empty old list every record of the collapsed new list
    is under Added and nothing is anywhere else; against an empty new list
    every record of the collapsed old list is under Removed. When the Ids
    of the list are pairwise distinct these are the records of the list
    itself. *)
Theorem compareMetadata_one_sided (l : list Metadata) (r : ChangeReport) :
  (isReport yaml_Marshal [] l r →
   Added r ≡ₚ recordsOf (toMap l) ∧ Removed r = [] ∧ Updated r = [] ∧
   (NoDup (Id <$> l) → Added r ≡ₚ l)) ∧
  (isReport yaml_Marshal l [] r →
   Removed r ≡ₚ recordsOf (toMap l) ∧ Added r = [] ∧ Updated r = [] ∧
   (NoDup (Id <$> l) → Removed r ≡ₚ l)).
Proof.
  split.
  - intros (Ha & Hr & Hu)%isReport_old_empty. repeat split; try done.
    intros Hnd. rewrite Ha. by apply recordsOf_toMap.
  - intros (Hr & Ha & Hu)%isReport_new_empty. repeat split; try done.
    intros Hnd. rewrite Hr. by apply recordsOf_toMap.
Qed.

(** X17. Exchanging the two lists exchanges Added and Removed and turns
    every pair of Updated round. *)
Theorem compareMetadata_exchange (oldList newList : list Metadata)
    (r r' : ChangeReport) :
  isReport yaml_Marshal oldList newList r →
  isReport yaml_Marshal newList oldList r' →
  Added r ≡ₚ Removed r' ∧ Removed r ≡ₚ Added r' ∧
  (∀ e, e ∈ Updated r ↔ swapEntry e ∈ Updated r').
Proof.
  intros (newOrder & oldOrder & Hnew & Hold & ->)
         (newOrder' & oldOrder' & Hnew' & Hold' & ->).
  rewrite !compareIn_eq. simpl.
  split; [|split].
  - change (removedOf (toMap oldList)) with (addedOf (toMap oldList)).
    by rewrite Hnew, Hold'.
  - change (removedOf (toMap newList)) with (addedOf (toMap newList)).
    by rewrite Hold, Hnew'.
  - intros [b a]. unfold swapEntry. simpl.
    rewrite (updatedOf_elem (toMap oldList) newOrder (toMap newList))
      by (intros k m; rewrite Hnew; apply elem_of_map_to_list).
    rewrite (updatedOf_elem (toMap newList) newOrder' (toMap oldList))
      by (intros k m; rewrite Hnew'; apply elem_of_map_to_list).
    split; intros (k & H1 & H2 & Hne); exists k; repeat split; try done;
      by intros Heq; apply Hne.
Qed.

End DifferMore.

Section DifferRun.
Import Differ Fixtures Samples.
Variable yaml_Unmarshal : string → string + list Metadata.
Variable yaml_Marshal : Metadata → string + string.
Variable json_MarshalIndent : ChangeReport → string + string.
Variable range : gmap string Metadata → list (string * Metadata).
Hypothesis range_perm : ∀ m, range m ≡ₚ map_to_list m.

Lemma compareRanged_isReport (oldList newList : list Metadata) :
  isReport yaml_Marshal oldList newList (compareRanged yaml_Marshal range oldList newList).
Proof.
  exists (range (toMap newList)), (range (toMap oldList)).
  split; [apply range_perm|]. split; [apply range_perm | done].
Qed.

(** X18. The Differ writes a report only when both flags are given, the new
    file is read and parsed, the old file is either missing, and then taken
    for an empty list, or read and parsed, and the write succeeds; what it
    writes is the marshalled comparison of the two lists. *)
Theorem main_written (oldFile newFile outputFile : string) (env : Env)
    (path data : string) :
  main yaml_Unmarshal yaml_Marshal json_MarshalIndent range
       oldFile newFile outputFile env = Written path data →
  path = outputFile ∧ oldFile ≠ "" ∧ newFile ≠ "" ∧ writeError env = None ∧
  ∃ newData newList oldList r,
    newRead env = ReadOk newData ∧ yaml_Unmarshal newData = inr newList ∧
    ((oldRead env = ReadNotExist ∧ oldList = []) ∨
     (∃ oldData, oldRead env = ReadOk oldData ∧ yaml_Unmarshal oldData = inr oldList)) ∧
    isReport yaml_Marshal oldList newList r ∧
    json_MarshalIndent r = inr data.
Proof.
  unfold main.
  destruct (String.eqb_spec oldFile "") as [|Hold]; [done|].
  destruct (String.eqb_spec newFile "") as [|Hnew]; [done|]. simpl.
  destruct (readOld yaml_Unmarshal env) as [fatal|oldList] eqn:HreadOld.
  { unfold readOld in HreadOld. destruct (oldRead env); try by simplify_eq.
    destruct (yaml_Unmarshal data0); by simplify_eq. }
  destruct (readNew yaml_Unmarshal env) as [fatal|newList] eqn:HreadNew.
  { unfold readNew in HreadNew. destruct (newRead env); try by simplify_eq.
    destruct (yaml_Unmarshal data0); by simplify_eq. }
  destruct (json_MarshalIndent _) as [err|reportJSON] eqn:Hjson; [done|].
  destruct (writeError env); [done|]. intros [= <- <-].
  repeat split; try done.
  unfold readNew in HreadNew. destruct (newRead env) as [| |newData] eqn:Hn; try done.
  destruct (yaml_Unmarshal newData) as [|newList'] eqn:Hpn; [done|].
  injection HreadNew as ->.
  exists newData, newList, oldList, (compareRanged yaml_Marshal range oldList newList).
  repeat split; try done; [|apply compareRanged_isReport].
  unfold readOld in HreadOld. destruct (oldRead env) as [| |oldData] eqn:Ho; try done.
  - left. by injection HreadOld as <-.
  - right. exists oldData. destruct (yaml_Unmarshal oldData); by simplify_eq.
Qed.

(** X19. With the old file missing and the new file parsed, the Differ does
    not fail on its inputs, and the report it marshals holds every record
    of the collapsed new list under Added and nothing under Removed and
    Updated. *)
Theorem main_old_missing (oldFile newFile outputFile : string) (env : Env)
    (newData : string) (newList : list Metadata) :
  oldFile ≠ "" → newFile ≠ "" →
  oldRead env = ReadNotExist →
  newRead env = ReadOk newData → yaml_Unmarshal newData = inr newList →
  ∃ r, Added r ≡ₚ recordsOf (toMap newList) ∧ Removed r = [] ∧ Updated r = [] ∧
       main yaml_Unmarshal yaml_Marshal json_MarshalIndent range
            oldFile newFile outputFile env
       = match json_MarshalIndent r with
         | inl err => FatalMarshal err
         | inr reportJSON =>
             match writeError env with
             | Some err => FatalWrite err
             | None => Written outputFile reportJSON
             end
         end.
Proof.
  intros Hold Hnew Holdread Hnewread Hparse.
  exists (compareRanged yaml_Marshal range [] newList).
  destruct (isReport_old_empty yaml_Marshal newList _
              (compareRanged_isReport [] newList)) as (Ha & Hr & Hu).
  repeat split; try done.
  unfold main, readOld, readNew.
  destruct (String.eqb_spec oldFile "") as [|_]; [done|].
  destruct (String.eqb_spec newFile "") as [|_]; [done|]. simpl.
  by rewrite Holdread, Hnewread, Hparse.
Qed.

End DifferRun.

Section DifferMoreExamples.
Import Differ Fixtures Samples.

Lemma compareMetadata_same_witness :
  isReport marshalLines [recA1; recB; recA2] [recA1; recB; recA2]
           (compareMetadata marshalLines [recA1; recB; recA2] [recA1; recB; recA2]) ∧
  (Added (compareMetadata marshalLines [recA1; recB; recA2] [recA1; recB; recA2]) = [] ∧
   Removed (compareMetadata marshalLines [recA1; recB; recA2] [recA1; recB; recA2]) = [] ∧
   Updated (compareMetadata marshalLines [recA1; recB; recA2] [recA1; recB; recA2]) = []).
Proof.
  split; [apply compareMetadata_isReport|].
  apply (compareMetadata_same marshalLines [recA1; recB; recA2] _
           (compareMetadata_isReport marshalLines _ _)).
Defined.

Lemma compareMetadata_one_sided_witness :
  isReport marshalLines [] [recA2; recB] (compareMetadata marshalLines [] [recA2; recB]) ∧
  NoDup (Id <$> [recA2; recB]) ∧
  Added (compareMetadata marshalLines [] [recA2; recB]) ≡ₚ [recA2; recB].
Proof.
  assert (Hnd : NoDup (Id <$> [recA2; recB])).
  { apply NoDup_cons. split; [by intros ?%list_elem_of_singleton|]. apply NoDup_singleton. }
  split; [apply compareMetadata_isReport|]. split; [exact Hnd|].
  destruct (proj1 (compareMetadata_one_sided marshalLines [recA2; recB]
                     (compareMetadata marshalLines [] [recA2; recB]))
              (compareMetadata_isReport marshalLines _ _)) as (_ & _ & _ & Hall).
  by apply Hall.
Defined.

Lemma compareMetadata_exchange_witness :
  isReport marshalLines [recA1] [recA2; recB] (compareMetadata marshalLines [recA1] [recA2; recB]) ∧
  isReport marshalLines [recA2; recB] [recA1] (compareMetadata marshalLines [recA2; recB] [recA1]) ∧
  Added (compareMetadata marshalLines [recA1] [recA2; recB])
    ≡ₚ Removed (compareMetadata marshalLines [recA2; recB] [recA1]).
Proof.
  split; [apply compareMetadata_isReport|]. split; [apply compareMetadata_isReport|].
  apply (compareMetadata_exchange marshalLines [recA1] [recA2; recB] _ _
           (compareMetadata_isReport marshalLines _ _)
           (compareMetadata_isReport marshalLines _ _)).
Defined.

Lemma main_written_witness :
  (∀ m : gmap string Metadata, map_to_list m ≡ₚ map_to_list m) ∧
  main parseSample marshalLines marshalReport map_to_list "old.yaml" "new.yaml"
       "changes.json" (mkEnv (ReadOk "old") (ReadOk "new") None)
    = Written "changes.json" "b,|,|,a" ∧
  writeError (mkEnv (ReadOk "old") (ReadOk "new") None) = None.
Proof.
  assert (Hrun : main parseSample marshalLines marshalReport map_to_list "old.yaml"
                   "new.yaml" "changes.json" (mkEnv (ReadOk "old") (ReadOk "new") None)
                 = Written "changes.json" "b,|,|,a") by (vm_compute; reflexivity).
  split; [done|]. split; [exact Hrun|].
  apply (main_written parseSample marshalLines marshalReport map_to_list
           (λ m, reflexivity (map_to_list m))
           "old.yaml" "new.yaml" "changes.json" _ _ _ Hrun).
Defined.

Lemma main_old_missing_witness :
  "old.yaml" ≠ "" ∧ "new.yaml" ≠ "" ∧ parseSample "new" = inr [recA2; recB] ∧
  ∃ r, Added r ≡ₚ recordsOf (toMap [recA2; recB]) ∧ Removed r = [] ∧ Updated r = [] ∧
       main parseSample marshalLines marshalReport map_to_list "old.yaml" "new.yaml"
            "changes.json" (mkEnv ReadNotExist (ReadOk "new") None)
       = match marshalReport r with
         | inl err => FatalMarshal err
         | inr reportJSON => Written "changes.json" reportJSON
         end.
Proof.
  split; [discriminate|]. split; [discriminate|]. split; [reflexivity|].
  apply (main_old_missing parseSample marshalLines marshalReport map_to_list
           (λ m, reflexivity (map_to_list m))
           "old.yaml" "new.yaml" "changes.json"
           (mkEnv ReadNotExist (ReadOk "new") None) "new" [recA2; recB]);
    (discriminate || reflexivity).
Defined.

End DifferMoreExamples.

(** ** The Resolver, further *)

Section ResolverMore.
Import Metagen Fixtures Samples.

(** X20. [getExprValue] panics exactly on a reference, direct or qualified,
    to a constant whose value is neither a string nor unknown; on every
    other expression it returns a string. *)
Theorem getExprValue_panics_exactly (info : Info) (expr : Node) :
  (∀ msg, getExprValue info expr = Panic msg ↔
          ∃ ident obj v,
            referenceOf expr = Some ident ∧ ObjectOf info ident = Some obj ∧
            Kind obj = Const v ∧ isStringOrUnknown v = false ∧ msg = "not a String") ∧
  ((∀ ident obj v, referenceOf expr = Some ident → ObjectOf info ident = Some obj →
                   Kind obj = Const v → isStringOrUnknown v = true) →
   ∃ value, getExprValue info expr = Ok value).
Proof.
  split; [intros msg; apply getExprValue_panics_iff|].
  intros Hsafe. destruct (getExprValue info expr) as [value|msg] eqn:Hrun; [by exists value|].
  apply getExprValue_panics_iff in Hrun as (ident & obj & v & Href & Hobj & Hkind & Hv & _).
  rewrite (Hsafe ident obj v Href Hobj Hkind) in Hv. done.
Qed.

Lemma getExprValue_panics_exactly_witness :
  (∀ ident obj v, referenceOf (qualified 60 "meta" "Version") = Some ident →
                  ObjectOf infoVersion ident = Some obj →
                  Kind obj = Const v → isStringOrUnknown v = true) ∧
  ∃ value, getExprValue infoVersion (qualified 60 "meta" "Version") = Ok value.
Proof.
  assert (Hsafe : ∀ ident obj v, referenceOf (qualified 60 "meta" "Version") = Some ident →
                    ObjectOf infoVersion ident = Some obj →
                    Kind obj = Const v → isStringOrUnknown v = true).
  { intros ident obj v [= <-] [= <-] [= <-]. reflexivity. }
  split; [exact Hsafe|].
  apply (proj2 (getExprValue_panics_exactly infoVersion (qualified 60 "meta" "Version")) Hsafe).
Defined.

Lemma TrimLeft_idem (s cutset : string) :
  Strings.TrimLeft (Strings.TrimLeft s cutset) cutset = Strings.TrimLeft s cutset.
Proof.
  induction s as [|c s IH]; simpl; [done|].
  destruct (Strings.inCutset c cutset) eqn:Hc; [exact IH|]. simpl. by rewrite Hc.
Qed.

Lemma TrimRight_idem (s cutset : string) :
  Strings.TrimRight (Strings.TrimRight s cutset) cutset = Strings.TrimRight s cutset.
Proof.
  induction s as [|c s IH]; simpl; [done|].
  destruct (Strings.TrimRight s cutset) as [|c' r] eqn:Hr.
  - destruct (Strings.inCutset c cutset) eqn:Hc; simpl; [done | by rewrite Hc].
  - cbn [Strings.TrimRight]. cbn [Strings.TrimRight] in IH. by rewrite IH.
Qed.

Lemma TrimLeft_TrimRight (s cutset : string) :
  Strings.TrimLeft s cutset = s →
  Strings.TrimLeft (Strings.TrimRight s cutset) cutset = Strings.TrimRight s cutset.
Proof.
  destruct s as [|c s]; [done|]. simpl.
  destruct (Strings.inCutset c cutset) eqn:Hc.
  - intros Heq. pose proof (TrimLeft_length s cutset) as Hlen.
    rewrite Heq in Hlen. simpl in Hlen. lia.
  - intros _. destruct (Strings.TrimRight s cutset); simpl; by rewrite Hc.
Qed.

(** X21. The text resolved from a string literal never starts or ends with
    a double quote, whatever the literal holds. *)
Theorem getExprValue_literal_trimmed (info : Info) (value : string) :
  ∃ text, getExprValue info (BasicLit STRING value) = Ok text ∧ quoteFree text.
Proof.
  exists (Strings.Trim value dquote). split; [done|].
  unfold quoteFree, Strings.Trim. split.
  - apply TrimLeft_TrimRight, TrimLeft_idem.
  - apply TrimRight_idem.
Qed.

End ResolverMore.
